(** * A shallow embedding of the tile rendering pipeline of
    versioned-datastore-tile-server ([maps.tiles], [maps.utils]).

    Python values are modelled by [pyval]; floats are idealised as reals;
    exceptions are the [Error] branch of [result]; generators are modelled
    as the list of values they yield followed by the exception that ended
    them, if any. *)

From Stdlib Require Import ZArith Lia List String Ascii Bool.
From Stdlib Require Import Reals Lra.
From Stdlib Require Import ListDec.
Import ListNotations.
#[local] Set Warnings "-register-all".

Open Scope Z_scope.
Open Scope string_scope.

(** ** Python runtime: exceptions, results, values *)

Inductive exn : Type :=
  | GridNotPowerOfTwoException (grid_width grid_height : Z)
  | TypeError (msg : string)
  | ValueError (msg : string)
  | KeyError (key : string)
  | IndexError
  | AttributeError (attr : string)
  | ZeroDivisionError
  | OverflowError (msg : string).

Inductive result (A : Type) : Type :=
  | Ok (a : A)
  | Error (e : exn).
Arguments Ok {A} a.
Arguments Error {A} e.

Definition bind {A B} (m : result A) (k : A -> result B) : result B :=
  match m with Ok a => k a | Error e => Error e end.

Notation "x <- m ;; k" := (bind m (fun x => k))
  (at level 61, m at next level, right associativity).

(** A Python value as the code handles it (JSON-like documents). *)
Inductive pyval : Type :=
  | VNone
  | VBool (b : bool)
  | VInt (z : Z)
  | VFloat (r : R)
  | VStr (s : string)
  | VList (l : list pyval)
  | VDict (kvs : list (string * pyval)).

(** [d[key]] on a dict; [KeyError] when absent, [TypeError] on a non-dict. *)
Fixpoint assoc_lookup (k : string) (kvs : list (string * pyval)) : option pyval :=
  match kvs with
  | [] => None
  | (k', v) :: rest => if String.eqb k k' then Some v else assoc_lookup k rest
  end.

Definition getitem (v : pyval) (k : string) : result pyval :=
  match v with
  | VDict kvs =>
      match assoc_lookup k kvs with Some x => Ok x | None => Error (KeyError k) end
  | _ => Error (TypeError "object is not subscriptable")
  end.

(** Python's integer floor division [a // b]. *)
Definition floordiv (a b : Z) : result Z :=
  if Z.eqb b 0 then Error ZeroDivisionError else Ok (Z.div a b).

(** Python sequence indexing [l[i]], with negative indices counted from the end. *)
Definition py_index {A} (l : list A) (i : Z) : result A :=
  let n := Z.of_nat (List.length l) in
  let j := if Z.ltb i 0 then i + n else i in
  if Z.ltb j 0 || Z.leb n j then Error IndexError
  else match nth_error l (Z.to_nat j) with Some a => Ok a | None => Error IndexError end.

(** [int(r)] on a float: truncation towards zero. *)
Definition py_int (r : R) : Z :=
  if Rle_dec 0 r then Int_part r else - Int_part (- r).

(** ** maps.utils *)

Definition clamp (value minimum maximum : Z) : Z :=
  Z.max minimum (Z.min value maximum).

Definition is_power_of_two (number : Z) : bool :=
  negb (Z.eqb number 0) && Z.eqb (Z.land number (number - 1)) 0.

(** ** Tile.calculate_precision: a dict literal indexed by the clamped zoom. *)

Definition precision_table : list (Z * Z) :=
  [(0, 3); (1, 3); (2, 4); (3, 4); (4, 5); (5, 5); (6, 6); (7, 6); (8, 7); (9, 7);
   (10, 8); (11, 9); (12, 9); (13, 10); (14, 10); (15, 11); (16, 11); (17, 11);
   (18, 12); (19, 12)].

Fixpoint zlookup (k : Z) (t : list (Z * Z)) : result Z :=
  match t with
  | [] => Error (KeyError "zoom")
  | (k', v) :: rest => if Z.eqb k k' then Ok v else zlookup k rest
  end.

Definition calculate_precision (z : Z) : result Z :=
  zlookup (clamp z 0 19) precision_table.

(** ** Tile.get_point_id_generator: the UTFGrid id encoding *)

Definition encode_id (point_id : Z) : Z :=
  let e0 := point_id + 32 in
  let e1 := if Z.leb 34 e0 then e0 + 1 else e0 in
  if Z.leb 92 e1 then e1 + 1 else e1.

(** The first [n] values yielded by the generator, as (str id, code point). *)
Definition point_ids (n : nat) : list (Z * Z) :=
  map (fun i => (Z.of_nat i, encode_id (Z.of_nat i))) (seq 1 n).

(** ** Tile.get_points_to_mark *)

(** [range(a, b)] over integers. *)
Definition zrange (a b : Z) : list Z :=
  map (fun k => a + Z.of_nat k) (seq 0 (Z.to_nat (b - a))).

Definition get_points_to_mark (x y point_width : Z) : list (Z * Z) :=
  let offset := Z.div point_width 2 in
  if negb (Z.eqb offset 0) then
    flat_map (fun i =>
      flat_map (fun j =>
        if Z.eqb (Z.abs i) offset && Z.eqb (Z.abs j) offset then []
        else [(x + i, y + j)])
      (zrange (- offset) (offset + 1)))
    (zrange (- offset) (offset + 1))
  else [(x, y)].

(** The cells of one mark kept by [as_grid]: those inside the grid, as
    (row, column) pairs in generation order. *)
Definition cells_to_mark (grid_size x y point_width : Z) : list (Z * Z) :=
  flat_map (fun '(xm, ym) =>
    if (Z.leb 0 xm && Z.ltb xm grid_size) && (Z.leb 0 ym && Z.ltb ym grid_size)
    then [(ym, xm)] else [])
  (get_points_to_mark x y point_width).

(** ** Strings: [str.split(',')], [float(s)], [str(n)] *)

Fixpoint split_on (sep : ascii) (s : string) : list string :=
  match s with
  | EmptyString => [EmptyString]
  | String c rest =>
      if Ascii.eqb c sep then EmptyString :: split_on sep rest
      else match split_on sep rest with
           | w :: ws => String c w :: ws
           | [] => [String c EmptyString]
           end
  end.

Definition is_space (c : ascii) : bool :=
  match c with " "%char | "009"%char | "010"%char | "013"%char => true | _ => false end.

Fixpoint strip_left (s : string) : string :=
  match s with
  | String c rest => if is_space c then strip_left rest else s
  | EmptyString => EmptyString
  end.

Definition strip (s : string) : string :=
  string_of_list_ascii (rev (list_ascii_of_string
    (strip_left (string_of_list_ascii (rev (list_ascii_of_string (strip_left s))))))).

Definition digit_value (c : ascii) : option Z :=
  let n := Z.of_nat (nat_of_ascii c) - 48 in
  if Z.leb 0 n && Z.leb n 9 then Some n else None.

(** Digits with at most one decimal point: (mantissa, digits after the
    point, digits seen, point seen). *)
Fixpoint parse_decimal (s : string) (m : Z) (scale : nat) (nd : nat) (dot : bool)
  : option (Z * nat * nat) :=
  match s with
  | EmptyString => Some (m, scale, nd)
  | String c rest =>
      if Ascii.eqb c "."%char then
        if dot then None else parse_decimal rest m scale nd true
      else match digit_value c with
           | Some d => parse_decimal rest (10 * m + d) (if dot then S scale else scale) (S nd) dot
           | None => None
           end
  end.

(** [float(s)] for the decimal literals stored in [meta.geo] (surrounding
    whitespace, an optional sign, digits and a decimal point); exponent
    notation and the special values [inf]/[nan] are not modelled and are
    reported as [ValueError]. *)
Definition py_float (s0 : string) : result R :=
  let s := strip s0 in
  let '(sign, body) :=
    match s with
    | String "-"%char rest => ((-1)%R, rest)
    | String "+"%char rest => (1%R, rest)
    | _ => (1%R, s)
    end in
  match parse_decimal body 0 0 0 false with
  | Some (m, scale, S _) => Ok (sign * (IZR m / 10 ^ scale))%R
  | _ => Error (ValueError "could not convert string to float")
  end.

Fixpoint digits_of (fuel : nat) (n : Z) (acc : string) : string :=
  match fuel with
  | O => acc
  | S f =>
      let acc' := String (ascii_of_nat (48 + Z.to_nat (n mod 10))) acc in
      if Z.ltb n 10 then acc' else digits_of f (n / 10) acc'
  end.

(** [str(n)] for the non-negative point ids. *)
Definition str_of_Z (n : Z) : string := digits_of (S (Z.to_nat n)) n EmptyString.

(** [latitude, longitude = map(float, geo.split(','))] *)
Definition parse_geo (geo : pyval) : result (R * R) :=
  match geo with
  | VStr s =>
      match split_on ","%char s with
      | [a; b] => la <- py_float a ;; lo <- py_float b ;; Ok (la, lo)
      | a :: b :: c :: _ =>
          _ <- py_float a ;; _ <- py_float b ;; _ <- py_float c ;;
          Error (ValueError "too many values to unpack (expected 2)")
      | [a] => _ <- py_float a ;; Error (ValueError "not enough values to unpack (expected 2, got 1)")
      | [] => Error (ValueError "not enough values to unpack (expected 2, got 0)")
      end
  | _ => Error (AttributeError "split")
  end.

(** [first['meta']['geo']] parsed as a coordinate pair. *)
Definition record_geo (first : pyval) : result (R * R) :=
  meta <- getitem first "meta" ;; geo <- getitem meta "geo" ;; parse_geo geo.

(** ** Tile geometry (web mercator), floats idealised as reals *)

Record Tile := mkTile { tile_x : Z; tile_y : Z; tile_z : Z; width : Z }.

(** [Tile(x, y, z)]: the subclasses pass no tile size, so it is 256. *)
Definition new_tile (x y z : Z) : Tile := mkTile x y z 256.

Section Geometry.
Local Open Scope R_scope.

(** [2 ** self.z] *)
Definition zoom_factor (t : Tile) : R := IZR (2 ^ tile_z t).

(** Python's float [a % b] for [b > 0]. *)
Definition py_fmod (a b : R) : R := a - b * IZR (Int_part (a / b)).

Definition radians (d : R) : R := d * PI / 180.
Definition degrees (r : R) : R := r * 180 / PI.

Definition clampR (value minimum maximum : R) : R := Rmax minimum (Rmin value maximum).

Definition longitude_to_x (t : Tile) (longitude : R) : R :=
  let longitude :=
    if Rlt_dec longitude (-180) then py_fmod (longitude + 180) 360 - 180
    else if Rlt_dec 180 longitude then py_fmod (longitude + 180) 360 - 180
    else longitude in
  ((longitude + 180) / 360) * zoom_factor t.

Definition latitude_to_y (t : Tile) (latitude : R) : R :=
  let latitude := clampR latitude (-850511 / 10000) (850511 / 10000) in
  let rad := radians latitude in
  (1 - ln (tan rad + 1 / cos rad) / PI) / 2 * zoom_factor t.

Definition translate (t : Tile) (x_extra y_extra : R) : R * R :=
  let zoom := zoom_factor t in
  let longitude_degrees := (IZR (tile_x t) + x_extra) / zoom * 360 - 180 in
  let latitude_radians := atan (sinh (PI * (1 - 2 * (IZR (tile_y t) + y_extra) / zoom))) in
  (degrees latitude_radians, longitude_degrees).

Definition middle (t : Tile) : R * R := translate t (1 / 2) (1 / 2).

Definition longitude_to_tile_x (t : Tile) (longitude resize_factor : R) : R :=
  let w := IZR (width t) * resize_factor in
  let x := longitude_to_x t longitude in
  let centre_x := longitude_to_x t (snd (middle t)) in
  (x - centre_x) * w + w / 2.

Definition latitude_to_tile_y (t : Tile) (latitude resize_factor : R) : R :=
  let h := IZR (width t) * resize_factor in
  let y := latitude_to_y t latitude in
  let centre_y := latitude_to_y t (fst (middle t)) in
  (y - centre_y) * h + h / 2.

Definition translate_to_tile (t : Tile) (latitude longitude resize_factor : R) : R * R :=
  (longitude_to_tile_x t longitude resize_factor, latitude_to_tile_y t latitude resize_factor).

(** Python's [round] on a float: to the nearest integer, ties to even. *)
Definition round_half_even (r : R) : Z :=
  let f := Int_part r in
  let d := r - IZR f in
  if Rlt_dec d (1 / 2) then f
  else if Rlt_dec (1 / 2) d then (f + 1)%Z
  else if Z.even f then f else (f + 1)%Z.

End Geometry.

(** A number as Python holds it: [int] or [float]. *)
Inductive pynum := PyInt (z : Z) | PyFloat (r : R).

Definition py_round (n : pynum) : Z :=
  match n with PyInt z => z | PyFloat r => round_half_even r end.

(** ** Buckets (maps.query.BucketResult) and the points handed to a tile *)

(** A [BucketResult]: its geohash key, the centre decoded from it, the
    document count, the first record, and [geohash.bbox(key)] (w, e, n, s). *)
Record BucketResult := mkBucket {
  key : string;
  centre_latitude : R;
  centre_longitude : R;
  total : Z;
  first_record : pyval;
  bbox : R * R * R * R }.

(** The elements of the [points]/[buckets] list: the web layer passes
    [BucketResult] objects; the docstrings of [Tile.as_grid] and
    [GriddedTile.group_points] describe 4-tuples. *)
Inductive point :=
  | PBucket (b : BucketResult)
  | PTuple (latitude longitude : R) (total : Z) (first : pyval).

Definition as_geo_json_bbox (b : BucketResult) : pyval :=
  let '(w, e, n, s) := bbox b in
  VDict [("type", VStr "Polygon");
         ("coordinates", VList [VList [VList [VFloat w; VFloat n]; VList [VFloat e; VFloat n];
                                       VList [VFloat e; VFloat s]; VList [VFloat w; VFloat s]]])].

(** ** Generators and list helpers *)

(** What a generator produces when consumed: the values it yielded, then
    the exception that ended it ([None] when it was exhausted normally). *)
Definition gen (A : Type) : Type := (list A * option exn)%type.

(** A generator looping over [l]: each element is skipped ([None]), yields
    a value, or raises. *)
Fixpoint gen_from {A B} (f : A -> option (result B)) (l : list A) : gen B :=
  match l with
  | [] => ([], None)
  | a :: rest =>
      match f a with
      | None => gen_from f rest
      | Some (Ok b) => let '(bs, e) := gen_from f rest in (b :: bs, e)
      | Some (Error e) => ([], Some e)
      end
  end.

Fixpoint update_nth {A} (n : nat) (f : A -> A) (l : list A) : list A :=
  match l, n with
  | [], _ => []
  | a :: rest, O => f a :: rest
  | a :: rest, S m => a :: update_nth m f rest
  end.

(** [enumerate(l)] *)
Definition enumerate {A} (l : list A) : list (Z * A) :=
  combine (map Z.of_nat (seq 0 (List.length l))) l.

Definition is_none (v : pyval) : bool := match v with VNone => true | _ => false end.

(** ** GriddedTile.group_points *)

Definition out_of_grid (x y : R) (grid_size : Z) : bool :=
  if Rlt_dec x 0 then true
  else if Rle_dec (IZR grid_size) x then true
  else if Rlt_dec y 0 then true
  else if Rle_dec (IZR grid_size) y then true
  else false.

Definition group_point (t : Tile) (grid_size : Z) (cell_ratio : R)
    (g : list (list (Z * pyval))) (p : point) : result (list (list (Z * pyval))) :=
  match p with
  | PBucket _ => Error (TypeError "cannot unpack non-iterable BucketResult object")
  | PTuple latitude longitude tot first =>
      let '(x, y) := translate_to_tile t latitude longitude cell_ratio in
      if out_of_grid x y grid_size then Ok g
      else
        let xi := py_int x in
        let yi := py_int y in
        Ok (update_nth (Z.to_nat yi)
              (update_nth (Z.to_nat xi)
                 (fun '(c, f) => (c + tot, if is_none f then first else f))) g)
  end.

Fixpoint fold_result {A B} (f : A -> B -> result A) (acc : A) (l : list B) : result A :=
  match l with
  | [] => Ok acc
  | b :: rest => a <- f acc b ;; fold_result f a rest
  end.

Definition group_points (t : Tile) (points : list point) (grid_resolution : Z)
    : result (list (list (Z * pyval))) :=
  grid_size <- floordiv (width t) grid_resolution ;;
  let cell_ratio := (IZR grid_size / IZR (width t))%R in
  let blank := repeat (repeat (0, VNone) (Z.to_nat grid_size)) (Z.to_nat grid_size) in
  fold_result (group_point t grid_size cell_ratio) blank points.

(** ** The marks handed to [as_grid] *)

(** A value yielded by [get_marks]: the 6-tuple [Tile.as_grid] unpacks
    (latitude, longitude, x, y, total, first), or the 3-tuple
    (point_data, x, y) yielded by [PlotTile.get_marks]. *)
Inductive mark :=
  | Mark6 (latitude longitude : R) (x y : pynum) (tot : Z) (first : pyval)
  | Mark3 (point_data : pyval) (x y : pynum).

(** The cells of a grouped grid, row by row: (x, y, total, first). *)
Definition grid_cells (g : list (list (Z * pyval))) : list (Z * Z * Z * pyval) :=
  flat_map (fun '(y, row) => map (fun '(x, (c, f)) => (x, y, c, f)) (enumerate row))
    (enumerate g).

Definition gridded_mark (cell : Z * Z * Z * pyval) : option (result mark) :=
  let '(x, y, tot, first) := cell in
  if Z.eqb tot 0 then None
  else Some (ll <- record_geo first ;;
             Ok (Mark6 (fst ll) (snd ll) (PyInt x) (PyInt y) tot first)).

Definition gridded_get_marks (t : Tile) (points : list point) (grid_resolution : Z) : gen mark :=
  match group_points t points grid_resolution with
  | Error e => ([], Some e)
  | Ok g => gen_from gridded_mark (grid_cells g)
  end.

Definition plot_point_data (b : BucketResult) : result pyval :=
  d <- getitem (first_record b) "data" ;;
  if Z.eqb (total b) 1 then
    ll <- record_geo (first_record b) ;;
    Ok (VDict [("count", VInt (total b)); ("data", d);
               ("record_latitude", VFloat (fst ll)); ("record_longitude", VFloat (snd ll))])
  else
    Ok (VDict [("count", VInt (total b)); ("data", d);
               ("record_latitude", VFloat (centre_latitude b));
               ("record_longitude", VFloat (centre_longitude b));
               ("geo_filter", as_geo_json_bbox b)]).

Definition plot_mark (t : Tile) (cell_ratio : R) (p : point) : option (result mark) :=
  match p with
  | PTuple _ _ _ _ => Some (Error (AttributeError "centre_latitude"))
  | PBucket b =>
      let '(x, y) := translate_to_tile t (centre_latitude b) (centre_longitude b) cell_ratio in
      Some (pd <- plot_point_data b ;; Ok (Mark3 pd (PyFloat x) (PyFloat y)))
  end.

Definition plot_get_marks (t : Tile) (points : list point) (grid_resolution : Z) : gen mark :=
  match floordiv (width t) grid_resolution with
  | Error e => ([], Some e)
  | Ok gs => gen_from (plot_mark t (IZR gs / IZR (width t))%R) points
  end.

Inductive style := Plot | Gridded.

Definition get_marks (s : style) : Tile -> list point -> Z -> gen mark :=
  match s with Plot => plot_get_marks | Gridded => gridded_get_marks end.

(** ** maps.exceptions.GridNotPowerOfTwoException *)

(** Calling the exception class with positional arguments: its [__init__]
    takes [grid_width] and [grid_height]. *)
Definition new_GridNotPowerOfTwoException (args : list Z) : result exn :=
  match args with
  | [w; h] => Ok (GridNotPowerOfTwoException w h)
  | [_] => Error (TypeError "__init__() missing 1 required positional argument: 'grid_height'")
  | _ => Error (TypeError "__init__() takes 3 positional arguments")
  end.

(** ** Tile.as_grid *)

(** The returned dict [{'grid': ..., 'keys': ..., 'data': ...}]; each row of
    [grid] is a string, given by its code points. *)
Record utfgrid := mkUTFGrid {
  grid : list (list Z);
  keys : list string;
  data : list (string * pyval) }.

Definition space : Z := 32.

Definition set_cell (enc : Z) (g : list (list Z)) (yx : Z * Z) : list (list Z) :=
  update_nth (Z.to_nat (fst yx)) (update_nth (Z.to_nat (snd yx)) (fun _ => enc)) g.

Definition grid_entry (tot : Z) (d : pyval) (report_latitude report_longitude : R) : pyval :=
  VDict [("count", VInt tot); ("data", d);
         ("record_latitude", VFloat report_latitude);
         ("record_longitude", VFloat report_longitude);
         ("geo_filter", VDict [("type", VStr "Point");
                               ("coordinates", VList [VFloat report_longitude;
                                                      VFloat report_latitude]);
                               ("distance", VStr "1m")])].

(** One iteration of the loop over the marks; the state carries the next
    value of the point id generator. *)
Definition process_mark (grid_size point_width : Z) (st : utfgrid * Z) (m : mark)
    : result (utfgrid * Z) :=
  let '(u, next_id) := st in
  match m with
  | Mark3 _ _ _ => Error (ValueError "not enough values to unpack (expected 6, got 3)")
  | Mark6 latitude longitude x y tot first =>
      let to_mark := cells_to_mark grid_size (py_round x) (py_round y) point_width in
      match to_mark with
      | [] => Ok st
      | _ :: _ =>
          let point_id := str_of_Z next_id in
          let encoded_id := encode_id next_id in
          let g := fold_left (set_cell encoded_id) to_mark (grid u) in
          let ks := app (keys u) [point_id] in
          rep <- (if Z.eqb tot 1 then record_geo first else Ok (latitude, longitude)) ;;
          d <- getitem first "data" ;;
          Ok (mkUTFGrid g ks (app (data u) [(point_id, grid_entry tot d (fst rep) (snd rep))]),
              next_id + 1)
      end
  end.

Definition blank_grid (grid_size : Z) : utfgrid :=
  mkUTFGrid (repeat (repeat space (Z.to_nat grid_size)) (Z.to_nat grid_size)) [""] [].

Definition as_grid (s : style) (t : Tile) (points : list point) (grid_resolution point_width : Z)
    : result utfgrid :=
  grid_size <- floordiv (width t) grid_resolution ;;
  if negb (is_power_of_two grid_size) then
    e <- new_GridNotPowerOfTwoException [grid_size] ;; Error e
  else
    let '(marks, stop) := get_marks s t points grid_resolution in
    st <- fold_result (process_mark grid_size point_width) (blank_grid grid_size, 1) marks ;;
    match stop with
    | Some e => Error e
    | None => Ok (fst st)
    end.

(** ** maps.utils.rebuild_data / rebuild_dict_or_list *)

Definition starts_with_underscore (k : string) : bool :=
  match k with String "_"%char _ => true | _ => false end.

Fixpoint rebuild_dict_or_list (v : pyval) : pyval :=
  match v with
  | VDict kvs =>
      match assoc_lookup "_u" kvs with
      | Some u => u
      | None =>
          VDict ((fix go (l : list (string * pyval)) : list (string * pyval) :=
                    match l with
                    | [] => []
                    | (k, x) :: rest =>
                        if negb (starts_with_underscore k) || String.eqb k "_id"
                        then (k, rebuild_dict_or_list x) :: go rest
                        else go rest
                    end) kvs)
      end
  | VList l => VList (map rebuild_dict_or_list l)
  | _ => v
  end.

Definition rebuild_data (parsed_data : pyval) : result pyval :=
  match parsed_data with
  | VDict kvs => Ok (VDict (map (fun '(k, x) => (k, rebuild_dict_or_list x)) kvs))
  | _ => Error (AttributeError "items")
  end.

(** ** Colours *)

(** A colour as its (r, g, b) channels; [Color.hex] is this triple written
    in hexadecimal. *)
Definition colour : Type := (Z * Z * Z)%type.

Definition violet : colour := (238, 130, 238).
Definition red : colour := (255, 0, 0).

(** [Color.range_to(other, steps)] of the external [colour] library: [steps]
    colours from the first to the second, both ends included. The library
    interpolates in HSL; here the interpolation is linear in RGB,
    and the proofs below only use the two end points. *)
Definition range_to (c1 c2 : colour) (steps : Z) : list colour :=
  let '(r1, g1, b1) := c1 in
  let '(r2, g2, b2) := c2 in
  let n := steps - 1 in
  let mix a b i := if Z.eqb n 0 then a else a + (b - a) * i / n in
  map (fun k => let i := Z.of_nat k in (mix r1 r2 i, mix g1 g2 i, mix b1 b2 i))
    (seq 0 (Z.to_nat steps)).

(** ** PlotTile *)

Record PlotTile := mkPlotTile { plot_tile : Tile; colours : list colour }.

Definition new_plot_tile (x y z : Z) : PlotTile :=
  mkPlotTile (new_tile x y z) (range_to violet red 360).

Definition choose_colour (pt : PlotTile) (longitude : R) : result colour :=
  py_index (colours pt) (py_int (longitude + 180)%R).

(** One [image.paste] of a [draw_point(...)] image. *)
Record paste := mkPaste {
  paste_radius : Z;
  paste_fill : colour;
  paste_border_width : Z;
  paste_border : colour;
  paste_resize_factor : Z;
  paste_position : Z * Z }.

Fixpoint map_result {A B} (f : A -> result B) (l : list A) : result (list B) :=
  match l with
  | [] => Ok []
  | a :: rest => b <- f a ;; bs <- map_result f rest ;; Ok (b :: bs)
  end.

(** [PlotTile.render], up to the final down-sampling and PNG encoding: the
    sequence of point images pasted onto the canvas. *)
Definition render (pt : PlotTile) (buckets : list point) (point_radius : Z)
    (point_colour : colour) (border_width : Z) (border_colour : colour)
    (resize_factor : Z) : result (list paste) :=
  let scaled_radius := point_radius * resize_factor in
  map_result (fun p =>
    match p with
    | PTuple _ _ _ _ => Error (AttributeError "centre_latitude")
    | PBucket b =>
        let '(x, y) := translate_to_tile (plot_tile pt) (centre_latitude b)
                         (centre_longitude b) (IZR resize_factor) in
        point_colour <- choose_colour pt (centre_longitude b) ;;
        Ok (mkPaste point_radius point_colour border_width border_colour resize_factor
              (round_half_even (x - IZR scaled_radius)%R,
               round_half_even (y - IZR scaled_radius)%R))
    end) buckets.

(** ** GriddedTile.assign_colour *)

(** [bisect.bisect_left(a, x)]: the binary search of the [bisect] module. *)
Fixpoint bisect_loop (fuel : nat) (a : list Z) (x : Z) (lo hi : nat) : nat :=
  match fuel with
  | O => lo
  | S f =>
      if Nat.ltb lo hi then
        let mid := Nat.div (lo + hi) 2 in
        if Z.ltb (nth mid a 0) x then bisect_loop f a x (S mid) hi
        else bisect_loop f a x lo mid
      else lo
  end.

Definition bisect_left (a : list Z) (x : Z) : nat :=
  bisect_loop (S (List.length a)) a x 0 (List.length a).

(** [math.exp(i)] on an integer [i >= 0]: a double, which overflows from
    [i = 710] on ([e^709] is about [8.2e307], [e^710] about [2.2e308], above
    the largest double [1.8e308]); Python then raises
    [OverflowError('math range error')]. *)
Definition math_exp_int (i : nat) : result R :=
  if Nat.ltb i 710 then Ok (exp (INR i)) else Error (OverflowError "math range error").

(** [[int(math.exp(i)) for i in range(range_size)]] *)
Definition thresholds (range_size : Z) : result (list Z) :=
  map_result (fun i => e <- math_exp_int i ;; Ok (py_int e)) (seq 0 (Z.to_nat range_size)).

Definition assign_colour (count : Z) (cold_colour hot_colour : colour) (range_size : Z)
    : result (option colour) :=
  if Z.eqb count 0 then Ok None
  else
    let cols := range_to cold_colour hot_colour (range_size + 1) in
    ths <- thresholds range_size ;;
    c <- py_index cols (Z.of_nat (bisect_left ths count)) ;;
    Ok (Some c).

(** ** python-geohash: the decoded longitude of a bucket centre *)


(** ** The precision table in the words of the spec (4.A) *)

Definition spec_precision (z : Z) : Z :=
  if Z.leb z 1 then 3 else if Z.leb z 3 then 4 else if Z.leb z 5 then 5
  else if Z.leb z 7 then 6 else if Z.leb z 9 then 7 else if Z.eqb z 10 then 8
  else if Z.leb z 12 then 9 else if Z.leb z 14 then 10 else if Z.leb z 17 then 11
  else 12.

(** ** Concrete inputs and auxiliary notions *)

(** The list [thresholds] builds when no [math.exp] call overflows. *)
Definition threshold_values (range_size : Z) : list Z :=
  map (fun i => py_int (exp (INR i))) (seq 0 (Z.to_nat range_size)).

Definition tile0 : Tile := new_tile 0 0 0.

Definition grid_shape (grid_size : Z) (u : utfgrid) : Prop :=
  List.length (grid u) = Z.to_nat grid_size /\
  Forall (fun row => List.length row = Z.to_nat grid_size) (grid u) /\
  nth_error (keys u) 0 = Some "".

Definition bucket_000 (first : pyval) (tot : Z) : BucketResult :=
  mkBucket "000" (-89.296875) (-179.296875) tot first
    ((-88.59375), (-180), (-90), (-178.59375))%R.

(** A record whose [data] subtree has a mapping with a [_u] key. *)
Definition record_u : pyval :=
  VDict [("meta", VDict [("geo", VStr "1,2")]);
         ("data", VDict [("a", VDict [("_u", VInt 1)])])].

Definition grid_8_at_4_4 (c : Z) : list (list Z) :=
  update_nth 4 (update_nth 4 (fun _ => c)) (repeat (repeat space 8) 8).

(** Whether [group_points] puts the point [p] into the cell of column [x]
    and row [y]: a 4-tuple inside the grid whose translated coordinates
    truncate to [(x, y)]. *)
Definition lands_in (t : Tile) (grid_resolution : Z) (p : point) (x y : Z) : bool :=
  let grid_size := width t / grid_resolution in
  let cell_ratio := (IZR grid_size / IZR (width t))%R in
  match p with
  | PBucket _ => false
  | PTuple latitude longitude _ _ =>
      let '(px, py) := translate_to_tile t latitude longitude cell_ratio in
      negb (out_of_grid px py grid_size) && Z.eqb (py_int px) x && Z.eqb (py_int py) y
  end.

(** The representative record of a cell: the first record that is not
    [None] among the points put into that cell, in input order; [None] when
    there is none. *)
Fixpoint representative (t : Tile) (grid_resolution : Z) (points : list point) (x y : Z)
    : pyval :=
  match points with
  | [] => VNone
  | p :: rest =>
      match p with
      | PTuple _ _ _ first =>
          if lands_in t grid_resolution p x y && negb (is_none first) then first
          else representative t grid_resolution rest x y
      | PBucket _ => representative t grid_resolution rest x y
      end
  end.

(** The sum of the totals of the points put into a cell. *)
Fixpoint cell_count (t : Tile) (grid_resolution : Z) (points : list point) (x y : Z) : Z :=
  match points with
  | [] => 0
  | p :: rest =>
      match p with
      | PTuple _ _ tot _ => if lands_in t grid_resolution p x y then tot else 0
      | PBucket _ => 0
      end + cell_count t grid_resolution rest x y
  end.

(** The grid [group_points] should build: row [y], column [x] holds the
    cell's count and representative record. *)
Definition grouped_grid (t : Tile) (grid_resolution : Z) (points : list point)
    : list (list (Z * pyval)) :=
  let n := Z.to_nat (width t / grid_resolution) in
  map (fun i => map (fun j => (cell_count t grid_resolution points (Z.of_nat j) (Z.of_nat i),
                               representative t grid_resolution points (Z.of_nat j) (Z.of_nat i)))
                  (seq 0 n))
    (seq 0 n).

(** An entry of [data] in the gridded style, built from the cell of column
    [x] and row [y]: its count, its representative record's [data] subtree
    and the coordinates parsed from that record's [meta.geo]. *)
Definition entry_from (t : Tile) (points : list point) (grid_resolution : Z)
    (kv : string * pyval) : Prop :=
  exists x y la lo d,
    cell_count t grid_resolution points x y <> 0 /\
    record_geo (representative t grid_resolution points x y) = Ok (la, lo) /\
    getitem (representative t grid_resolution points x y) "data" = Ok d /\
    snd kv = grid_entry (cell_count t grid_resolution points x y) d la lo.

Definition data_u : pyval := VDict [("a", VDict [("_u", VInt 1)])].

Definition grid_record_u : utfgrid :=
  mkUTFGrid (grid_8_at_4_4 (encode_id 1)) [""; "1"] [("1", grid_entry 1 data_u 1 2)].

Definition render_000 (point_colour : colour) : result (list paste) :=
  render (new_plot_tile 0 0 0) [PBucket (bucket_000 VNone 1)] 5 point_colour 1 (0, 0, 0) 1.

Definition paste_000 : paste :=
  mkPaste 5 violet 1 (0, 0, 0) 1
    (round_half_even
       (longitude_to_tile_x (new_tile 0 0 0) (-179.296875) (IZR 1) - IZR (5 * 1))%R,
     round_half_even
       (latitude_to_tile_y (new_tile 0 0 0) (-89.296875) (IZR 1) - IZR (5 * 1))%R).

(** The inverse of [encode_id] on the code points it produces. *)
Definition decode_id (c : Z) : Z :=
  if Z.leb 93 c then c - 34 else if Z.leb 35 c then c - 33 else c - 32.

Definition nonspace_chars (u : utfgrid) : list Z :=
  filter (fun c => negb (Z.eqb c space)) (List.concat (grid u)).

(** The number of distinct non-space characters of the grid. *)
Definition distinct_nonspace (u : utfgrid) : nat :=
  List.length (nodup Z.eq_dec (nonspace_chars u)).

(** A record with [meta.geo = "1,2"] and an empty [data] subtree. *)
Definition record_0 : pyval :=
  VDict [("meta", VDict [("geo", VStr "1,2")]); ("data", VDict [])].

Definition cell_pos (cell : Z * Z * Z * pyval) : Z * Z :=
  let '(x, y, _, _) := cell in (x, y).

Definition mark_pos (m : mark) : Z * Z :=
  match m with
  | Mark6 _ _ x y _ _ => (py_round x, py_round y)
  | Mark3 _ x y => (py_round x, py_round y)
  end.

(** The character at row [y], column [x]. *)
Definition cell (g : list (list Z)) (y x : Z) : option Z :=
  match nth_error g (Z.to_nat y) with
  | Some row => nth_error row (Z.to_nat x)
  | None => None
  end.

(** Every character of the grid is a space or the code of an id below [n]. *)
Definition chars_ok (n : Z) (g : list (list Z)) : Prop :=
  forall row c, In row g -> In c row -> c = space \/ exists k, 1 <= k < n /\ c = encode_id k.

(** The loop invariant of [as_grid] over the marks still to process:
    the grid keeps its shape, [keys] has one entry per id used so far plus
    [""], every character is a space or the code of a used id, and with
    [point_width <= 1] every used id still occupies a cell that no later
    mark can paint over. *)
Definition grid_invariant (grid_size point_width : Z) (st : utfgrid * Z) (rest : list mark)
    : Prop :=
  let '(u, n) := st in
  grid_shape grid_size u /\ 1 <= n /\ Z.of_nat (List.length (keys u)) = n /\
  chars_ok n (grid u) /\ NoDup (map mark_pos rest) /\
  (point_width <= 1 -> forall k, 1 <= k < n ->
     exists y x, 0 <= y /\ 0 <= x /\ cell (grid u) y x = Some (encode_id k) /\
       ~ In (x, y) (map mark_pos rest)).

(** ** Further source functions and auxiliary notions *)

Definition lat_lon_clamp (pair : R * R) : R * R :=
  (clampR (fst pair) (-850511 / 10000) (850511 / 10000), clampR (snd pair) (-180) 180).

Definition zsum (l : list Z) : Z := fold_right Z.add 0 l.

(** The sum of the totals held in the cells of a grouped grid. *)

Definition cell_total (g : list (list (Z * pyval))) : Z := zsum (map fst (List.concat g)).

(** What one point adds to the grid in [group_points]: its total when it
    falls inside the grid, nothing otherwise. *)

Definition point_weight (t : Tile) (grid_size : Z) (cell_ratio : R) (p : point) : Z :=
  match p with
  | PBucket _ => 0
  | PTuple latitude longitude tot _ =>
      let '(x, y) := translate_to_tile t latitude longitude cell_ratio in
      if out_of_grid x y grid_size then 0 else tot
  end.

(** One [image.paste] of a [draw_point(point_radius, colour.hex,
    resize_factor=resize_factor)] image in [GriddedTile.render]. *)

Record gridded_paste := mkGriddedPaste {
  gp_radius : Z;
  gp_colour : colour;
  gp_resize_factor : Z;
  gp_position : Z * Z }.

(** [Image.new('RGBA', (w, h))]: an image of that size; Pillow refuses a
    negative size with [ValueError]. *)

Definition image_new (w h : Z) : result (Z * Z) :=
  if Z.ltb w 0 || Z.ltb h 0 then Error (ValueError "Width and height must be >= 0")
  else Ok (w, h).

(** [draw_point(point_radius, colour, resize_factor=resize_factor)] with no
    border, as [GriddedTile.render] calls it: the size of the point image.
    The image is [diameter = point_radius * 2 * resize_factor] pixels wide;
    the circle is drawn in the box [[0, 0, far_side, far_side]] with
    [far_side = diameter - 1], and [ImageDraw.ellipse] refuses a box whose
    x1 is below its x0, which a diameter of 0 gives. *)

Definition draw_point (point_radius resize_factor : Z) : result (Z * Z) :=
  let diameter := point_radius * 2 * resize_factor in
  image <- image_new diameter diameter ;;
  let far_side := diameter - 1 in
  if Z.ltb far_side 0 then Error (ValueError "x1 must be greater than or equal to x0")
  else Ok image.

(** [GriddedTile.render], up to the final down-sampling and PNG encoding:
    the point images pasted onto the canvas, cell by cell. *)

Definition gridded_render (t : Tile) (points : list point) (grid_resolution : Z)
    (cold_colour hot_colour : colour) (range_size resize_factor : Z)
    : result (list gridded_paste) :=
  let point_radius := grid_resolution / 2 in
  image <- image_new (width t * resize_factor) (width t * resize_factor) ;;
  g <- group_points t points grid_resolution ;;
  ps <- map_result (fun '(x, y, count, _) =>
          c <- assign_colour count cold_colour hot_colour range_size ;;
          match c with
          | None => Ok None
          | Some colour =>
              point_image <- draw_point point_radius resize_factor ;;
              Ok (Some (mkGriddedPaste point_radius colour resize_factor
                          (x * grid_resolution * resize_factor,
                           y * grid_resolution * resize_factor)))
          end)
        (grid_cells g) ;;
  Ok (flat_map (fun o => match o with Some p => [p] | None => [] end) ps).

(** [clamp(int(math.log(bucket.total)), 1, 10)] in [HeatmapTile.render];
    [math.log] raises [ValueError] on a non-positive argument. *)

Definition heatmap_weight (tot : Z) : result Z :=
  if Z.leb tot 0 then Error (ValueError "math domain error")
  else Ok (clamp (py_int (ln (IZR tot))) 1 10).


Definition square (grid_size : Z) (g : list (list (Z * pyval))) : Prop :=
  List.length g = Z.to_nat grid_size /\
  Forall (fun row => List.length row = Z.to_nat grid_size) g.

Definition sorted_nth (a : list Z) : Prop :=
  forall i j, (i <= j < List.length a)%nat -> nth i a 0 <= nth j a 0.

Definition count_lt (a : list Z) (x : Z) : nat := List.length (filter (fun v => Z.ltb v x) a).

Definition unopt {A} (os : list (option A)) : list A :=
  flat_map (fun o => match o with Some p => [p] | None => [] end) os.

Definition ids_invariant (st : utfgrid * Z) : Prop :=
  let '(u, next_id) := st in
  1 <= next_id /\
  keys u = "" :: map str_of_Z (zrange 1 next_id) /\
  map fst (data u) = map str_of_Z (zrange 1 next_id).

Section pyval_induction.
Variable P : pyval -> Prop.
Hypothesis HNone : P VNone.
Hypothesis HBool : forall b, P (VBool b).
Hypothesis HInt : forall z, P (VInt z).
Hypothesis HFloat : forall r, P (VFloat r).
Hypothesis HStr : forall s, P (VStr s).
Hypothesis HList : forall l, Forall P l -> P (VList l).
Hypothesis HDict : forall kvs, Forall (fun kv => P (snd kv)) kvs -> P (VDict kvs).

Fixpoint pyval_deep_ind (v : pyval) : P v :=
  match v with
  | VNone => HNone
  | VBool b => HBool b
  | VInt z => HInt z
  | VFloat r => HFloat r
  | VStr s => HStr s
  | VList l =>
      HList l ((fix go (l : list pyval) : Forall P l :=
                  match l with
                  | [] => Forall_nil _
                  | a :: rest => Forall_cons a (pyval_deep_ind a) (go rest)
                  end) l)
  | VDict kvs =>
      HDict kvs ((fix go (l : list (string * pyval)) : Forall (fun kv => P (snd kv)) l :=
                    match l with
                    | [] => Forall_nil _
                    | (k, a) :: rest => Forall_cons (k, a) (pyval_deep_ind a) (go rest)
                    end) kvs)
  end.
End pyval_induction.

(** The keys a structural dict keeps. *)

Definition kept_key (k : string) : bool :=
  negb (starts_with_underscore k) || String.eqb k "_id".

(** A document with no underscore key other than [_id] at any depth. *)

Fixpoint clean (v : pyval) : bool :=
  match v with
  | VList l => forallb clean l
  | VDict kvs => forallb (fun kv => kept_key (fst kv) && clean (snd kv)) kvs
  | _ => true
  end.

Fixpoint dec_value (s : string) (acc : Z) : Z :=
  match s with
  | EmptyString => acc
  | String c rest => dec_value rest (10 * acc + (Z.of_nat (nat_of_ascii c) - 48))
  end.

Definition top_left (t : Tile) (extra : R) : R * R := translate t (- extra) (- extra).

Definition bottom_right (t : Tile) (extra : R) : R * R := translate t (1 + extra) (1 + extra).

Definition request_args : Type := list (string * string).

Fixpoint arg_lookup (name : string) (args : request_args) : option string :=
  match args with
  | [] => None
  | (k, v) :: rest => if String.eqb name k then Some v else arg_lookup name rest
  end.

Definition extract {A} (args : request_args) (name : string) (default : A)
    (parser : string -> result A) : result A :=
  match arg_lookup name args with Some value => parser value | None => Ok default end.

(** Python truthiness. *)

Definition truthy (v : pyval) : bool :=
  match v with
  | VNone => false
  | VBool b => b
  | VInt z => negb (Z.eqb z 0)
  | VFloat r => if Req_EM_T r 0 then false else true
  | VStr s => negb (String.eqb s "")
  | VList l => negb (List.forallb (fun _ => false) l)
  | VDict kvs => negb (List.forallb (fun _ => false) kvs)
  end.

(** [for x in v]: lists yield their items, strings their characters,
    dicts their keys. *)

Definition py_iter (v : pyval) : result (list pyval) :=
  match v with
  | VList l => Ok l
  | VStr s => Ok (map (fun c => VStr (String c EmptyString)) (list_ascii_of_string s))
  | VDict kvs => Ok (map (fun kv => VStr (fst kv)) kvs)
  | _ => Error (TypeError "object is not iterable")
  end.

Definition strip_value (v : pyval) : result string :=
  match v with VStr s => Ok (strip s) | _ => Error (AttributeError "strip") end.

Inductive search_params_result :=
  | SearchParams (indexes : list string) (search_body : pyval)
  | SearchError (e : exn)
  | MissingIndex.

(** The tail of the function: the [None] check and
    [[index.strip() for index in indexes]]. *)

Definition finish_search_params (indexes search_body : pyval) : search_params_result :=
  if is_none indexes then MissingIndex
  else match (items <- py_iter indexes ;; map_result strip_value items) with
       | Ok l => SearchParams l search_body
       | Error e => SearchError e
       end.

Section search_params.
Variable json_loads : string -> result pyval.
Variable parse_query_body : string -> result pyval.

Definition extract_search_params (args : request_args) : search_params_result :=
  let r :=
    indexes <- extract args "indexes" VNone
                 (fun i => Ok (VList (map VStr (split_on ","%char i)))) ;;
    search_body <- extract args "search" VNone json_loads ;;
    query_body <- extract args "query" VNone parse_query_body ;;
    if truthy query_body then
      search_body' <- getitem query_body "search" ;;
      indexes' <- getitem query_body "indexes" ;;
      Ok (indexes', search_body')
    else Ok (indexes, search_body) in
  match r with
  | Error e => SearchError e
  | Ok (indexes, search_body) => finish_search_params indexes search_body
  end.

End search_params.

Definition grid_record_u_cells : list (list (Z * pyval)) :=
  update_nth 4 (update_nth 4 (fun _ => (1, record_u))) (repeat (repeat (0, VNone) 8) 8).

Definition doc_clean : pyval :=
  VDict [("_id", VInt 7); ("name", VStr "x"); ("tags", VList [VStr "a"; VNone])].

Definition doc_structural : list (string * pyval) :=
  [("_id", VInt 7); ("_meta", VInt 1); ("name", VDict [("_u", VStr "x")])].

Definition args_indexes : request_args := [("indexes", "index-a, index-b")].

Definition args_query : request_args := [("indexes", "ignored"); ("query", "q")].

Definition query_body_chars : pyval := VDict [("search", VNone); ("indexes", VStr "ab")].

(** * Lemmas *)

Lemma Int_part_of (r : R) (k : Z) : (IZR k <= r < IZR k + 1)%R -> Int_part r = k.
Proof. intros [H1 H2]. symmetry. apply Int_part_spec. lra. Qed.

Lemma py_int_of (r : R) (k : Z) : (0 <= r)%R -> (IZR k <= r < IZR k + 1)%R -> py_int r = k.
Proof.
  intros H0 Hk. unfold py_int. destruct (Rle_dec 0 r); [|lra]. now apply Int_part_of.
Qed.

Lemma py_int_range (r : R) (n : Z) :
  (0 <= r < IZR n)%R -> (0 <= py_int r < n)%Z.
Proof.
  intros [H0 H1]. unfold py_int. destruct (Rle_dec 0 r); [|lra].
  destruct (base_Int_part r) as [Ha Hb]. split.
  - assert (IZR (-1) < IZR (Int_part r))%R by lra.
    apply lt_IZR in H. lia.
  - apply lt_IZR. lra.
Qed.

Lemma length_range_to (c1 c2 : colour) (n : Z) :
  List.length (range_to c1 c2 n) = Z.to_nat n.
Proof.
  destruct c1 as [[r1 g1] b1], c2 as [[r2 g2] b2]. unfold range_to.
  now rewrite length_map, length_seq.
Qed.

Lemma py_index_in_range {A} (l : list A) (i : Z) :
  (0 <= i < Z.of_nat (List.length l))%Z -> exists a, py_index l i = Ok a /\ In a l.
Proof.
  intros Hi. unfold py_index.
  replace (Z.ltb i 0) with false by (symmetry; apply Z.ltb_ge; lia).
  replace (Z.ltb i 0 || Z.leb (Z.of_nat (List.length l)) i) with false
    by (symmetry; apply orb_false_iff; split; [apply Z.ltb_ge | apply Z.leb_gt]; lia).
  destruct (nth_error l (Z.to_nat i)) as [a|] eqn:E.
  - exists a. split; [reflexivity|]. eapply nth_error_In; eauto.
  - apply nth_error_None in E. lia.
Qed.

(** * Claims *)

(** C9: for every zoom [z], [calculate_precision] is the table value at
    [clamp(z, 0, 19)] (0-1: 3, 2-3: 4, 4-5: 5, 6-7: 6, 8-9: 7, 10: 8,
    11-12: 9, 13-14: 10, 15-17: 11, 18-19: 12); in particular 5 at zoom 5,
    9 at zoom 11 and 12 at zoom 25. *)
Theorem calculate_precision_table (z : Z) :
  calculate_precision z = Ok (spec_precision (clamp z 0 19)) /\
  calculate_precision 5 = Ok 5 /\ calculate_precision 11 = Ok 9 /\
  calculate_precision 25 = Ok 12.
Proof.
  split; [|repeat split; reflexivity].
  unfold calculate_precision.
  assert (Hc : (0 <= clamp z 0 19 <= 19)%Z) by (unfold clamp; lia).
  destruct Hc as [Hlo Hhi]. generalize dependent (clamp z 0 19). intros c Hlo Hhi.
  assert (c = 0 \/ c = 1 \/ c = 2 \/ c = 3 \/ c = 4 \/ c = 5 \/ c = 6 \/ c = 7 \/ c = 8 \/
          c = 9 \/ c = 10 \/ c = 11 \/ c = 12 \/ c = 13 \/ c = 14 \/ c = 15 \/ c = 16 \/
          c = 17 \/ c = 18 \/ c = 19)%Z as Hcases by lia.
  repeat (destruct Hcases as [Hcases | Hcases]; [subst; reflexivity|]); subst; reflexivity.
Qed.

(** C5 (code_bug evidence): around the centre (4, 4) of an 8x8 grid, the
    cells [as_grid] marks for [point_width = 3] are exactly the five cells
    of the plus shape, but for [point_width = 5] they are 21 distinct cells
    (the 5x5 square without its four corners), not the 13-cell diamond. *)
Theorem points_to_mark_width_5_has_21_cells :
  cells_to_mark 8 4 4 3 = [(4, 3); (3, 4); (4, 4); (5, 4); (4, 5)] /\
  List.length (cells_to_mark 8 4 4 5) = 21%nat /\
  NoDup (cells_to_mark 8 4 4 5).
Proof.
  split; [reflexivity|]. split; [reflexivity|].
  vm_compute. repeat constructor; simpl; intuition discriminate.
Qed.

(** C6 (code_bug evidence): when [256 // grid_resolution] is not a power of
    two, [as_grid] raises [TypeError] (constructing the exception with one
    argument), never [GridNotPowerOfTwoException]; e.g. grid_resolution 3. *)
Theorem as_grid_not_power_of_two_raises_TypeError (s : style) (x y z : Z)
    (points : list point) (point_width : Z) :
  as_grid s (new_tile x y z) points 3 point_width =
  Error (TypeError "__init__() missing 1 required positional argument: 'grid_height'").
Proof. reflexivity. Qed.




(** ** bisect_left and the exponential thresholds *)

Lemma bisect_loop_spec (a : list Z) (x : Z) (p : nat) :
  (forall i, (i < p)%nat -> nth i a 0 < x) ->
  (forall i, (p <= i < List.length a)%nat -> x <= nth i a 0) ->
  forall fuel lo hi, (hi - lo < fuel)%nat -> (lo <= p <= hi)%nat ->
    (hi <= List.length a)%nat -> bisect_loop fuel a x lo hi = p.
Proof.
  intros Hlt Hge fuel. induction fuel as [|f IH]; intros lo hi Hf Hp Hh; [lia|].
  cbn [bisect_loop]. destruct (Nat.ltb lo hi) eqn:Elh.
  - apply Nat.ltb_lt in Elh.
    pose proof (Nat.div_mod (lo + hi) 2 ltac:(lia)) as Hdm.
    pose proof (Nat.mod_upper_bound (lo + hi) 2 ltac:(lia)) as Hmu.
    set (mid := Nat.div (lo + hi) 2) in *. cbv zeta.
    destruct (Z.ltb (nth mid a 0) x) eqn:Em.
    + apply Z.ltb_lt in Em.
      assert (mid < p)%nat.
      { destruct (Nat.lt_ge_cases mid p) as [H|H]; [exact H|].
        specialize (Hge mid ltac:(lia)). lia. }
      apply IH; lia.
    + apply Z.ltb_ge in Em.
      assert (p <= mid)%nat.
      { destruct (Nat.lt_ge_cases mid p) as [H|H]; [|exact H].
        specialize (Hlt mid H). lia. }
      apply IH; lia.
  - apply Nat.ltb_ge in Elh. lia.
Qed.

Lemma bisect_left_spec (a : list Z) (x : Z) (p : nat) :
  (p <= List.length a)%nat ->
  (forall i, (i < p)%nat -> nth i a 0 < x) ->
  (forall i, (p <= i < List.length a)%nat -> x <= nth i a 0) ->
  bisect_left a x = p.
Proof. intros Hp Hlt Hge. unfold bisect_left. apply bisect_loop_spec; auto; lia. Qed.

Lemma length_threshold_values (range_size : Z) :
  List.length (threshold_values range_size) = Z.to_nat range_size.
Proof. unfold threshold_values. now rewrite length_map, length_seq. Qed.

Lemma map_result_ok_map {A B} (f : A -> result B) (g : A -> B) (l : list A) :
  (forall a, In a l -> f a = Ok (g a)) -> map_result f l = Ok (map g l).
Proof.
  induction l as [|a l IH]; intros H; [reflexivity|].
  simpl. rewrite (H a (or_introl eq_refl)). simpl.
  rewrite IH by (intros b Hb; apply H; right; exact Hb). reflexivity.
Qed.

Lemma map_result_app_error {A B} (f : A -> result B) (l1 l2 : list A) (a : A) (e : exn) :
  (forall b, In b l1 -> exists c, f b = Ok c) -> f a = Error e ->
  map_result f (app l1 (a :: l2)) = Error e.
Proof.
  induction l1 as [|b l1 IH]; intros H Ha; simpl.
  - rewrite Ha. reflexivity.
  - destruct (H b (or_introl eq_refl)) as [c Hc]. rewrite Hc. simpl.
    rewrite IH; [reflexivity| |exact Ha]. intros b' Hb'. apply H. right. exact Hb'.
Qed.

(** Up to [range_size = 710] every [math.exp(i)] is finite. *)
Lemma thresholds_ok (range_size : Z) :
  range_size <= 710 -> thresholds range_size = Ok (threshold_values range_size).
Proof.
  intros Hr. unfold thresholds, threshold_values. apply map_result_ok_map.
  intros i Hi. apply in_seq in Hi. unfold math_exp_int.
  replace (Nat.ltb i 710) with true by (symmetry; apply Nat.ltb_lt; lia). reflexivity.
Qed.

(** From [range_size = 711] on, [math.exp(710)] is evaluated and overflows. *)
Lemma thresholds_overflow (range_size : Z) :
  711 <= range_size -> thresholds range_size = Error (OverflowError "math range error").
Proof.
  intros Hr. unfold thresholds.
  replace (Z.to_nat range_size) with (710 + S (Z.to_nat range_size - 711))%nat by lia.
  rewrite seq_app, Nat.add_0_l, <- (cons_seq _ 710). apply map_result_app_error.
  - intros b Hb. apply in_seq in Hb. unfold math_exp_int.
    replace (Nat.ltb b 710) with true by (symmetry; apply Nat.ltb_lt; lia).
    eexists. reflexivity.
  - reflexivity.
Qed.

Lemma nth_map_lt {A B} (f : A -> B) (l : list A) (d : A) (db : B) (i : nat) :
  (i < List.length l)%nat -> nth i (map f l) db = f (nth i l d).
Proof.
  intros Hi. rewrite nth_indep with (d' := f d) by (rewrite length_map; exact Hi).
  apply map_nth.
Qed.

Lemma nth_threshold_values (range_size : Z) (i : nat) :
  (i < Z.to_nat range_size)%nat ->
  nth i (threshold_values range_size) 0 = Int_part (exp (INR i)).
Proof.
  intros Hi. unfold threshold_values.
  rewrite (nth_map_lt _ _ 0%nat) by (rewrite length_seq; lia).
  rewrite seq_nth by lia. rewrite Nat.add_0_l.
  unfold py_int. destruct (Rle_dec 0 (exp (INR i))) as [_|Hn]; [reflexivity|].
  exfalso. apply Hn. left. apply exp_pos.
Qed.

Lemma exp_INR_le (i j : nat) : (i <= j)%nat -> (exp (INR i) <= exp (INR j))%R.
Proof.
  intros H. apply le_INR in H. destruct H as [H|H].
  - left. now apply exp_increasing.
  - rewrite H. lra.
Qed.

Lemma Int_part_le (r : R) : (IZR (Int_part r) <= r)%R.
Proof. apply base_Int_part. Qed.

Lemma Int_part_ge (r : R) (c : Z) : (IZR c <= r)%R -> (c <= Int_part r)%Z.
Proof.
  intros H. destruct (base_Int_part r) as [_ H2].
  assert (IZR (c - 1) < IZR (Int_part r))%R by (rewrite minus_IZR; lra).
  apply lt_IZR in H0. lia.
Qed.



Lemma assign_colour_bisect (count : Z) (cold_colour hot_colour : colour) (range_size : Z) :
  count <> 0 -> range_size <= 710 ->
  assign_colour count cold_colour hot_colour range_size =
    (c <- py_index (range_to cold_colour hot_colour (range_size + 1))
            (Z.of_nat (bisect_left (threshold_values range_size) count)) ;; Ok (Some c)).
Proof.
  intros Hc Hr. unfold assign_colour.
  replace (Z.eqb count 0) with false by (symmetry; apply Z.eqb_neq; exact Hc).
  rewrite thresholds_ok by exact Hr. reflexivity.
Qed.

Lemma assign_colour_overflow (count : Z) (cold_colour hot_colour : colour) (range_size : Z) :
  count <> 0 -> 711 <= range_size ->
  assign_colour count cold_colour hot_colour range_size =
    Error (OverflowError "math range error").
Proof.
  intros Hc Hr. unfold assign_colour.
  replace (Z.eqb count 0) with false by (symmetry; apply Z.eqb_neq; exact Hc).
  rewrite thresholds_overflow by exact Hr. reflexivity.
Qed.




(** ** The tile (0, 0, 0): the whole world *)

Lemma zoom_factor_tile0 : zoom_factor tile0 = 1%R.
Proof. reflexivity. Qed.

Lemma middle_tile0 : middle tile0 = (0%R, 0%R).
Proof.
  unfold middle, translate. rewrite zoom_factor_tile0. simpl tile_x. simpl tile_y.
  replace (PI * (1 - 2 * (IZR 0 + 1 / 2) / 1))%R with 0%R by field.
  rewrite sinh_0, atan_0. unfold degrees. f_equal; field. apply PI_neq0.
Qed.

Lemma longitude_to_x_tile0 (longitude : R) :
  (-180 <= longitude <= 180)%R -> longitude_to_x tile0 longitude = ((longitude + 180) / 360)%R.
Proof.
  intros H. unfold longitude_to_x. rewrite zoom_factor_tile0.
  destruct (Rlt_dec longitude (-180)); [lra|].
  destruct (Rlt_dec 180 longitude); [lra|]. lra.
Qed.

Lemma clampR_in (v lo hi : R) : (lo <= v <= hi)%R -> clampR v lo hi = v.
Proof.
  intros H. unfold clampR, Rmax, Rmin.
  destruct (Rle_dec v hi); [|lra]. destruct (Rle_dec lo v); lra.
Qed.

Lemma latitude_to_y_tile0_0 : latitude_to_y tile0 0 = (1 / 2)%R.
Proof.
  unfold latitude_to_y. rewrite zoom_factor_tile0, clampR_in by lra.
  unfold radians. replace (0 * PI / 180)%R with 0%R by field.
  rewrite tan_0, cos_0. replace (0 + 1 / 1)%R with 1%R by field. rewrite ln_1.
  field. apply PI_neq0.
Qed.

Lemma latitude_to_y_tile0_45 :
  latitude_to_y tile0 45 = ((1 - ln (1 + sqrt 2) / PI) / 2)%R.
Proof.
  unfold latitude_to_y. rewrite zoom_factor_tile0, clampR_in by lra.
  unfold radians. replace (45 * PI / 180)%R with (PI / 4)%R by field.
  rewrite tan_PI4, cos_PI4.
  replace (1 / (1 / sqrt 2))%R with (sqrt 2) by (field; apply Rgt_not_eq, sqrt_lt_R0; lra).
  lra.
Qed.

Lemma ln_1_sqrt2_bounds : (0 < ln (1 + sqrt 2) < PI)%R.
Proof.
  assert (Hs0 : (0 < sqrt 2)%R) by (apply sqrt_lt_R0; lra).
  assert (Hs2 : (sqrt 2 < 2)%R).
  { rewrite <- (sqrt_square 2) at 2 by lra. apply sqrt_lt_1; lra. }
  split.
  - rewrite <- ln_1. apply ln_increasing; lra.
  - rewrite <- (ln_exp PI). apply ln_increasing; [lra|].
    pose proof (exp_ineq1 PI (PI_neq0)). pose proof PI_RGT_0.
    assert (3 < PI)%R.
    { pose proof PI2_3_2. lra. }
    lra.
Qed.

Lemma translate_to_tile_tile0 (latitude longitude ratio : R) :
  (-180 <= longitude <= 180)%R ->
  translate_to_tile tile0 latitude longitude ratio =
  (((longitude + 180) / 360) * (256 * ratio), latitude_to_y tile0 latitude * (256 * ratio))%R.
Proof.
  intros H. unfold translate_to_tile, longitude_to_tile_x, latitude_to_tile_y.
  rewrite middle_tile0. simpl fst. simpl snd.
  rewrite !longitude_to_x_tile0 by lra. rewrite latitude_to_y_tile0_0.
  simpl width. f_equal; field.
Qed.

(** ** Shape of the returned grid *)

Lemma length_update_nth {A} (n : nat) (f : A -> A) (l : list A) :
  List.length (update_nth n f l) = List.length l.
Proof. revert n; induction l as [|a l IH]; intros [|n]; simpl; auto. Qed.

Lemma Forall_update_nth {A} (P : A -> Prop) (n : nat) (f : A -> A) (l : list A) :
  (forall a, P a -> P (f a)) -> Forall P l -> Forall P (update_nth n f l).
Proof.
  intros Hf Hl. revert n; induction Hl as [|a l Ha Hl IH]; intros [|n]; simpl;
    constructor; auto.
Qed.

Lemma fold_result_inv {A B} (P : A -> Prop) (f : A -> B -> result A) (acc : A) (l : list B)
    (r : A) :
  (forall a b a', P a -> f a b = Ok a' -> P a') ->
  P acc -> fold_result f acc l = Ok r -> P r.
Proof.
  intros Hf. revert acc; induction l as [|b l IH]; intros acc Hacc H; simpl in H.
  - inversion H; subst; assumption.
  - destruct (f acc b) as [a|e] eqn:E; simpl in H; [|discriminate].
    eapply IH; [eapply Hf; eauto | exact H].
Qed.

Lemma set_cell_shape (grid_size enc : Z) (g : list (list Z)) (yx : Z * Z) :
  List.length g = Z.to_nat grid_size ->
  Forall (fun row => List.length row = Z.to_nat grid_size) g ->
  List.length (set_cell enc g yx) = Z.to_nat grid_size /\
  Forall (fun row => List.length row = Z.to_nat grid_size) (set_cell enc g yx).
Proof.
  intros H1 H2. unfold set_cell. split.
  - rewrite length_update_nth; exact H1.
  - apply Forall_update_nth; [|exact H2]. intros a Ha. rewrite length_update_nth; exact Ha.
Qed.

Lemma fold_set_cell_shape (grid_size enc : Z) (cells : list (Z * Z)) (g : list (list Z)) :
  List.length g = Z.to_nat grid_size ->
  Forall (fun row => List.length row = Z.to_nat grid_size) g ->
  List.length (fold_left (set_cell enc) cells g) = Z.to_nat grid_size /\
  Forall (fun row => List.length row = Z.to_nat grid_size) (fold_left (set_cell enc) cells g).
Proof.
  revert g; induction cells as [|c cells IH]; intros g H1 H2; simpl; [auto|].
  destruct (set_cell_shape grid_size enc g c H1 H2). apply IH; assumption.
Qed.

Lemma process_mark_shape (grid_size point_width : Z) (st st' : utfgrid * Z) (m : mark) :
  grid_shape grid_size (fst st) ->
  process_mark grid_size point_width st m = Ok st' -> grid_shape grid_size (fst st').
Proof.
  destruct st as [u next_id]. intros (H1 & H2 & H3) H. unfold process_mark in H.
  destruct m as [la lo x y tot first|]; [|discriminate].
  destruct (cells_to_mark grid_size (py_round x) (py_round y) point_width) as [|c cs] eqn:E.
  - inversion H; subst; repeat split; assumption.
  - destruct (if Z.eqb tot 1 then record_geo first else Ok (la, lo)) as [rep|e];
      simpl in H; [|discriminate].
    destruct (getitem first "data") as [d|e]; simpl in H; [|discriminate].
    inversion H; subst; clear H. simpl.
    destruct (fold_set_cell_shape grid_size (encode_id next_id) (c :: cs) (grid u) H1 H2).
    split; [tauto|]. split; [tauto|]. simpl.
    destruct u as [g0 ks0 dt0]; simpl in *.
    destruct ks0 as [|k0 ks0]; simpl in *; [discriminate H3|exact H3].
Qed.

Lemma blank_grid_shape (grid_size : Z) : grid_shape grid_size (blank_grid grid_size).
Proof.
  unfold blank_grid, grid_shape; simpl. rewrite repeat_length. repeat split.
  apply Forall_forall. intros row Hrow. apply repeat_spec in Hrow. subst.
  apply repeat_length.
Qed.

(** The fold over the marks inside [as_grid]: what a successful call is made of. *)
Lemma as_grid_Ok_inv (s : style) (t : Tile) (points : list point)
    (grid_resolution point_width : Z) (u : utfgrid) :
  as_grid s t points grid_resolution point_width = Ok u ->
  exists grid_size marks st,
    floordiv (width t) grid_resolution = Ok grid_size /\
    is_power_of_two grid_size = true /\
    get_marks s t points grid_resolution = (marks, None) /\
    fold_result (process_mark grid_size point_width) (blank_grid grid_size, 1) marks = Ok st /\
    u = fst st.
Proof.
  unfold as_grid. intros H.
  destruct (floordiv (width t) grid_resolution) as [gs|e] eqn:D; simpl in H; [|discriminate].
  destruct (is_power_of_two gs) eqn:P; simpl in H.
  - destruct (get_marks s t points grid_resolution) as [marks stop] eqn:G.
    destruct (fold_result (process_mark gs point_width) (blank_grid gs, 1) marks) as [st|e]
      eqn:F; simpl in H; [|discriminate].
    destruct stop; [discriminate|]. inversion H; subst.
    exists gs, marks, st. auto.
  - destruct (new_GridNotPowerOfTwoException [gs]); discriminate.
Qed.

Lemma as_grid_shape (s : style) (t : Tile) (points : list point)
    (grid_resolution point_width : Z) (u : utfgrid) :
  as_grid s t points grid_resolution point_width = Ok u ->
  exists grid_size, floordiv (width t) grid_resolution = Ok grid_size /\
    is_power_of_two grid_size = true /\ grid_shape grid_size u.
Proof.
  intros H. destruct (as_grid_Ok_inv _ _ _ _ _ _ H) as (gs & marks & st & H1 & H2 & _ & H4 & ->).
  exists gs. split; [exact H1|]. split; [exact H2|].
  apply (fold_result_inv (fun st => grid_shape gs (fst st))
    (process_mark gs point_width) (blank_grid gs, 1) marks st); [|apply blank_grid_shape|exact H4].
  intros a b a' Ha Hb. exact (process_mark_shape _ _ _ _ _ Ha Hb).
Qed.

(** C1: whenever [as_grid] returns, for either style, its grid has
    [grid_size] rows of [grid_size] characters and [keys[0] = ""]; but with
    the plot style, a bucket list whose first bucket has a [data] subtree
    makes [as_grid] raise [ValueError]: [PlotTile.get_marks] yields 3-tuples
    and [Tile.as_grid] unpacks six values from each. *)
Theorem as_grid_plot_raises_ValueError (t : Tile) (b : BucketResult) (rest : list point)
    (grid_resolution point_width grid_size : Z) (point_data : pyval) :
  (forall s t' points gr pw u, as_grid s t' points gr pw = Ok u ->
     exists gs, floordiv (width t') gr = Ok gs /\ is_power_of_two gs = true /\
       grid_shape gs u) /\
  (floordiv (width t) grid_resolution = Ok grid_size ->
   is_power_of_two grid_size = true ->
   plot_point_data b = Ok point_data ->
   as_grid Plot t (PBucket b :: rest) grid_resolution point_width =
     Error (ValueError "not enough values to unpack (expected 6, got 3)")).
Proof.
  split; [exact as_grid_shape|].
  intros H1 H2 H3. unfold as_grid. rewrite H1. simpl bind. rewrite H2. simpl negb.
  cbv iota beta.
  unfold get_marks, plot_get_marks. rewrite H1. simpl gen_from.
  unfold plot_mark at 1.
  destruct (translate_to_tile t (centre_latitude b) (centre_longitude b)
              (IZR grid_size / IZR (width t))) as [x y].
  rewrite H3. simpl bind.
  destruct (gen_from _ rest) as [ms stop].
  reflexivity.
Qed.

Lemma as_grid_plot_raises_ValueError_witness :
  floordiv (width tile0) 4 = Ok 64 /\ is_power_of_two 64 = true /\
  plot_point_data (bucket_000 (VDict [("data", VDict [])]) 2) =
    Ok (VDict [("count", VInt 2); ("data", VDict []);
               ("record_latitude", VFloat (-89.296875));
               ("record_longitude", VFloat (-179.296875));
               ("geo_filter", as_geo_json_bbox (bucket_000 (VDict [("data", VDict [])]) 2))]) /\
  as_grid Plot tile0 [PBucket (bucket_000 (VDict [("data", VDict [])]) 2)] 4 3 =
    Error (ValueError "not enough values to unpack (expected 6, got 3)").
Proof.
  split; [reflexivity|]. split; [reflexivity|]. split; [reflexivity|].
  apply (proj2 (as_grid_plot_raises_ValueError tile0
           (bucket_000 (VDict [("data", VDict [])]) 2) [] 4 3 64
           (VDict [("count", VInt 2); ("data", VDict []);
               ("record_latitude", VFloat (-89.296875));
               ("record_longitude", VFloat (-179.296875));
               ("geo_filter", as_geo_json_bbox (bucket_000 (VDict [("data", VDict [])]) 2))])));
    reflexivity.
Defined.

(** ** Grouping points into cells *)

Lemma out_of_grid_false (x y : R) (grid_size : Z) :
  (0 <= x < IZR grid_size)%R -> (0 <= y < IZR grid_size)%R -> out_of_grid x y grid_size = false.
Proof.
  intros Hx Hy. unfold out_of_grid.
  destruct (Rlt_dec x 0); [lra|]. destruct (Rle_dec (IZR grid_size) x); [lra|].
  destruct (Rlt_dec y 0); [lra|]. destruct (Rle_dec (IZR grid_size) y); [lra|].
  reflexivity.
Qed.

Lemma group_point_at (t : Tile) (grid_size : Z) (cell_ratio : R) (g : list (list (Z * pyval)))
    (latitude longitude : R) (tot : Z) (first : pyval) (x y : R) :
  translate_to_tile t latitude longitude cell_ratio = (x, y) ->
  (0 <= x < IZR grid_size)%R -> (0 <= y < IZR grid_size)%R ->
  group_point t grid_size cell_ratio g (PTuple latitude longitude tot first) =
  Ok (update_nth (Z.to_nat (py_int y))
        (update_nth (Z.to_nat (py_int x))
           (fun '(c, f) => (c + tot, if is_none f then first else f))) g).
Proof.
  intros Ht Hx Hy. unfold group_point. rewrite Ht, out_of_grid_false by assumption.
  reflexivity.
Qed.

Lemma py_int_IZR (k : Z) : (0 <= k)%Z -> py_int (IZR k) = k.
Proof.
  intros Hk. apply py_int_of; [apply IZR_le; exact Hk|]. split; [lra|].
  rewrite <- plus_IZR. apply IZR_lt. lia.
Qed.

(** Where a point of the tile (0, 0, 0) lands in an 8 x 8 grid
    ([grid_resolution] 32) and in a 2 x 2 grid ([grid_resolution] 128). *)
Lemma translate_tile0_8_origin :
  translate_to_tile tile0 0 0 (IZR 8 / IZR 256) = (IZR 4, IZR 4).
Proof.
  rewrite translate_to_tile_tile0 by lra. rewrite latitude_to_y_tile0_0.
  f_equal; field.
Qed.

Lemma group_points_record_u :
  group_points tile0 [PTuple 0 0 1 record_u] 32 =
  Ok (update_nth 4 (update_nth 4 (fun _ => (1, record_u))) (repeat (repeat (0, VNone) 8) 8)).
Proof.
  change (group_points tile0 [PTuple 0 0 1 record_u] 32) with
    (fold_result (group_point tile0 8 (IZR 8 / IZR 256)) (repeat (repeat (0, VNone) 8) 8)
       [PTuple 0 0 1 record_u]).
  unfold fold_result.
  rewrite (group_point_at _ _ _ _ _ _ _ _ (IZR 4) (IZR 4) translate_tile0_8_origin)
    by (split; [apply IZR_le | apply IZR_lt]; lia).
  rewrite py_int_IZR by lia. reflexivity.
Qed.

Lemma as_grid_record_u :
  exists la lo, record_geo record_u = Ok (la, lo) /\
  as_grid Gridded tile0 [PTuple 0 0 1 record_u] 32 1 =
  Ok (mkUTFGrid (grid_8_at_4_4 (encode_id 1)) [""; "1"]
        [("1", grid_entry 1 (VDict [("a", VDict [("_u", VInt 1)])]) la lo)]).
Proof.
  eexists _, _. split; [reflexivity|].
  unfold as_grid. cbn [get_marks]. unfold gridded_get_marks.
  rewrite group_points_record_u. reflexivity.
Qed.

(** ** Where the representative records come from *)

Lemma in_update_nth {A} (n : nat) (f : A -> A) (l : list A) (x : A) :
  In x (update_nth n f l) -> In x l \/ exists y, In y l /\ x = f y.
Proof.
  revert n; induction l as [|a l IH]; intros [|n] H; simpl in H.
  - contradiction.
  - contradiction.
  - destruct H as [H|H]; [right; exists a; simpl; auto | left; simpl; auto].
  - destruct H as [H|H]; [left; simpl; auto|].
    destruct (IH n H) as [H'|(y & Hy & ->)]; [left; simpl; auto | right; exists y; simpl; auto].
Qed.

Lemma fold_result_inv_in {A B} (P : A -> Prop) (f : A -> B -> result A) (acc : A)
    (l : list B) (r : A) :
  (forall a b a', P a -> In b l -> f a b = Ok a' -> P a') ->
  P acc -> fold_result f acc l = Ok r -> P r.
Proof.
  revert acc; induction l as [|b l IH]; intros acc Hf Hacc H; simpl in H.
  - inversion H; subst; assumption.
  - destruct (f acc b) as [a|e] eqn:E; simpl in H; [|discriminate].
    eapply IH; [| eapply Hf; [exact Hacc | left; reflexivity | exact E] | exact H].
    intros a0 b0 a0' Ha Hb Hf0. eapply Hf; [exact Ha | right; exact Hb | exact Hf0].
Qed.

Lemma out_of_grid_false_inv (x y : R) (grid_size : Z) :
  out_of_grid x y grid_size = false -> (0 <= x < IZR grid_size)%R /\ (0 <= y < IZR grid_size)%R.
Proof.
  unfold out_of_grid.
  destruct (Rlt_dec x 0); [discriminate|]. destruct (Rle_dec (IZR grid_size) x); [discriminate|].
  destruct (Rlt_dec y 0); [discriminate|]. destruct (Rle_dec (IZR grid_size) y); [discriminate|].
  intros _. lra.
Qed.


Lemma update_nth_map_seq {A} (f : A -> A) (h : nat -> A) (n s k : nat) :
  update_nth k f (map h (seq s n)) =
  map (fun i => if Nat.eqb i (s + k) then f (h i) else h i) (seq s n).
Proof.
  revert s k. induction n as [|n IH]; intros s k; [destruct k; reflexivity|].
  cbn [seq map]. destruct k as [|k].
  - cbn [update_nth]. rewrite Nat.add_0_r, Nat.eqb_refl. f_equal.
    apply map_ext_in. intros i Hi. apply in_seq in Hi.
    replace (Nat.eqb i s) with false by (symmetry; apply Nat.eqb_neq; lia). reflexivity.
  - cbn [update_nth]. rewrite IH.
    replace (Nat.eqb s (s + S k)) with false by (symmetry; apply Nat.eqb_neq; lia).
    f_equal. apply map_ext. intros i. now rewrite Nat.add_succ_r.
Qed.

Lemma map_seq_const {A} (c : A) (s n : nat) : map (fun _ => c) (seq s n) = repeat c n.
Proof. revert s. induction n as [|n IH]; intros s; [reflexivity|]. simpl. now rewrite IH. Qed.

Lemma representative_snoc (t : Tile) (grid_resolution : Z) (points : list point) (p : point)
    (x y : Z) :
  representative t grid_resolution (app points [p]) x y =
  if is_none (representative t grid_resolution points x y)
  then representative t grid_resolution [p] x y
  else representative t grid_resolution points x y.
Proof.
  induction points as [|q points IH]; [reflexivity|].
  destruct q as [b|la lo tot first]; cbn [app representative]; [exact IH|].
  destruct (lands_in t grid_resolution (PTuple la lo tot first) x y && negb (is_none first)) eqn:E;
    [|exact IH].
  apply andb_true_iff in E as [_ E]. apply negb_true_iff in E. rewrite E. reflexivity.
Qed.

Lemma cell_count_snoc (t : Tile) (grid_resolution : Z) (points : list point) (p : point)
    (x y : Z) :
  cell_count t grid_resolution (app points [p]) x y =
  cell_count t grid_resolution points x y + cell_count t grid_resolution [p] x y.
Proof.
  induction points as [|q points IH]; [reflexivity|].
  cbn [app cell_count]. cbn [cell_count] in IH. rewrite IH. lia.
Qed.

Lemma first_unless_none (f : pyval) : (if negb (is_none f) then f else VNone) = f.
Proof. destruct f; reflexivity. Qed.

Lemma py_int_nonneg (r : R) : (0 <= r)%R -> 0 <= py_int r.
Proof.
  intros H. unfold py_int. destruct (Rle_dec 0 r) as [_|]; [|lra].
  apply Int_part_ge. simpl. exact H.
Qed.

Lemma group_point_grouped (t : Tile) (grid_resolution : Z) (points : list point) (p : point)
    (g : list (list (Z * pyval))) :
  group_point t (width t / grid_resolution) (IZR (width t / grid_resolution) / IZR (width t))%R
    (grouped_grid t grid_resolution points) p = Ok g ->
  g = grouped_grid t grid_resolution (app points [p]).
Proof.
  intros H. destruct p as [b|la lo tot first]; [discriminate|].
  unfold group_point in H.
  destruct (translate_to_tile t la lo (IZR (width t / grid_resolution) / IZR (width t)))
    as [px py] eqn:T.
  assert (Hl : forall x y, lands_in t grid_resolution (PTuple la lo tot first) x y =
                 negb (out_of_grid px py (width t / grid_resolution)) &&
                 Z.eqb (py_int px) x && Z.eqb (py_int py) y).
  { intros x y. unfold lands_in. cbv zeta. rewrite T. reflexivity. }
  destruct (out_of_grid px py (width t / grid_resolution)) eqn:O.
  - inversion H; subst; clear H. unfold grouped_grid. cbv zeta.
    apply map_ext. intros i. apply map_ext. intros j.
    rewrite cell_count_snoc, representative_snoc. cbn [cell_count representative].
    rewrite Hl. simpl. rewrite Z.add_0_r.
    destruct (is_none (representative t grid_resolution points (Z.of_nat j) (Z.of_nat i))) eqn:N;
      [|reflexivity].
    destruct (representative t grid_resolution points (Z.of_nat j) (Z.of_nat i));
      try discriminate. reflexivity.
  - destruct (out_of_grid_false_inv _ _ _ O) as [Hx Hy].
    pose proof (py_int_nonneg px ltac:(lra)) as Px.
    pose proof (py_int_nonneg py ltac:(lra)) as Py.
    inversion H; subst; clear H. unfold grouped_grid. cbv zeta.
    rewrite update_nth_map_seq. apply map_ext. intros i.
    rewrite Nat.add_0_l. destruct (Nat.eqb_spec i (Z.to_nat (py_int py))) as [Ei|Ei].
    + rewrite update_nth_map_seq. apply map_ext. intros j. rewrite Nat.add_0_l.
      rewrite cell_count_snoc, representative_snoc. cbn [cell_count representative].
      rewrite Hl. replace (Z.eqb (py_int py) (Z.of_nat i)) with true
        by (symmetry; apply Z.eqb_eq; lia).
      destruct (Nat.eqb_spec j (Z.to_nat (py_int px))) as [Ej|Ej].
      * replace (Z.eqb (py_int px) (Z.of_nat j)) with true by (symmetry; apply Z.eqb_eq; lia).
        simpl. rewrite Z.add_0_r, first_unless_none. reflexivity.
      * replace (Z.eqb (py_int px) (Z.of_nat j)) with false by (symmetry; apply Z.eqb_neq; lia).
        simpl. rewrite Z.add_0_r.
        destruct (is_none (representative t grid_resolution points (Z.of_nat j) (Z.of_nat i)))
          eqn:N; [|reflexivity].
        destruct (representative t grid_resolution points (Z.of_nat j) (Z.of_nat i));
          try discriminate. reflexivity.
    + apply map_ext. intros j.
      rewrite cell_count_snoc, representative_snoc. cbn [cell_count representative].
      rewrite Hl. replace (Z.eqb (py_int py) (Z.of_nat i)) with false
        by (symmetry; apply Z.eqb_neq; lia).
      rewrite !andb_false_r. simpl. rewrite Z.add_0_r.
      destruct (is_none (representative t grid_resolution points (Z.of_nat j) (Z.of_nat i)))
        eqn:N; [|reflexivity].
      destruct (representative t grid_resolution points (Z.of_nat j) (Z.of_nat i));
        try discriminate. reflexivity.
Qed.

Lemma fold_group_point_grouped (t : Tile) (grid_resolution : Z) (l pre : list point)
    (g : list (list (Z * pyval))) :
  fold_result (group_point t (width t / grid_resolution)
                 (IZR (width t / grid_resolution) / IZR (width t))%R)
    (grouped_grid t grid_resolution pre) l = Ok g ->
  g = grouped_grid t grid_resolution (app pre l).
Proof.
  revert pre. induction l as [|p l IH]; intros pre H; simpl in H.
  - inversion H; subst. now rewrite app_nil_r.
  - destruct (group_point _ _ _ (grouped_grid t grid_resolution pre) p) as [g1|e] eqn:E;
      simpl in H; [|discriminate].
    apply group_point_grouped in E. subst g1.
    rewrite (IH _ H), <- app_assoc. reflexivity.
Qed.

(** [group_points] builds [grouped_grid]: each cell holds the sum of the
    totals of the points put into it and its representative record. *)
Lemma group_points_grouped (t : Tile) (points : list point) (grid_resolution : Z)
    (g : list (list (Z * pyval))) :
  group_points t points grid_resolution = Ok g -> g = grouped_grid t grid_resolution points.
Proof.
  unfold group_points. intros H.
  destruct (floordiv (width t) grid_resolution) as [gs|e] eqn:F; simpl in H; [|discriminate].
  unfold floordiv in F. destruct (Z.eqb grid_resolution 0); inversion F; subst; clear F.
  assert (Hb : repeat (repeat (0, VNone) (Z.to_nat (width t / grid_resolution)))
                 (Z.to_nat (width t / grid_resolution)) = grouped_grid t grid_resolution []).
  { unfold grouped_grid. cbn [cell_count representative].
    rewrite map_seq_const, map_seq_const. reflexivity. }
  rewrite Hb in H. exact (fold_group_point_grouped _ _ _ [] _ H).
Qed.

Lemma enumerate_map_seq {A} (h : nat -> A) (n : nat) :
  enumerate (map h (seq 0 n)) = map (fun i => (Z.of_nat i, h i)) (seq 0 n).
Proof.
  unfold enumerate. rewrite length_map, length_seq. generalize 0%nat as s.
  induction n as [|n IH]; intros s; [reflexivity|]. simpl. now rewrite IH.
Qed.

Lemma in_grid_cells_grouped (t : Tile) (grid_resolution : Z) (points : list point)
    (x y c : Z) (f : pyval) :
  In (x, y, c, f) (grid_cells (grouped_grid t grid_resolution points)) ->
  c = cell_count t grid_resolution points x y /\ f = representative t grid_resolution points x y.
Proof.
  unfold grid_cells, grouped_grid. rewrite enumerate_map_seq. intros H.
  apply in_flat_map in H as ([y' row] & Hrow & H).
  apply in_map_iff in Hrow as (i & Ei & _). inversion Ei; subst; clear Ei.
  rewrite enumerate_map_seq in H.
  apply in_map_iff in H as ([x' [c' f']] & Heq & Hx). inversion Heq; subst; clear Heq.
  apply in_map_iff in Hx as (j & Ej & _). inversion Ej; subst. auto.
Qed.

Lemma gen_from_in {A B} (f : A -> option (result B)) (l : list A) (bs : list B)
    (e : option exn) (b : B) :
  gen_from f l = (bs, e) -> In b bs -> exists a, In a l /\ f a = Some (Ok b).
Proof.
  revert bs; induction l as [|a l IH]; intros bs H Hb; simpl in H.
  - inversion H; subst; contradiction.
  - destruct (f a) as [[b'|e']|] eqn:E.
    + destruct (gen_from f l) as [bs' e''] eqn:G. inversion H; subst; clear H.
      destruct Hb as [<-|Hb]; [exists a; simpl; auto|].
      destruct (IH bs' eq_refl Hb) as (a' & Ha' & Hf). exists a'; simpl; auto.
    + inversion H; subst; contradiction.
    + destruct (IH bs H Hb) as (a' & Ha' & Hf). exists a'; simpl; auto.
Qed.

Lemma in_enumerate {A} (l : list A) (i : Z) (a : A) : In (i, a) (enumerate l) -> In a l.
Proof. unfold enumerate. apply in_combine_r. Qed.

Lemma in_grid_cells (g : list (list (Z * pyval))) (x y c : Z) (f : pyval) :
  In (x, y, c, f) (grid_cells g) -> exists row, In row g /\ In (c, f) row.
Proof.
  unfold grid_cells. intros H. apply in_flat_map in H as ([y' row] & Hrow & H).
  apply in_map_iff in H as ([x' [c' f']] & Heq & Hx). inversion Heq; subst.
  exists row. split; [exact (in_enumerate _ _ _ Hrow) | exact (in_enumerate _ _ _ Hx)].
Qed.

(** Each mark of the gridded style: a cell with a nonzero count, placed at
    the coordinates parsed from the cell's representative record. *)
Lemma gridded_get_marks_good (t : Tile) (points : list point) (grid_resolution : Z)
    (marks : list mark) (e : option exn) (m : mark) :
  gridded_get_marks t points grid_resolution = (marks, e) -> In m marks ->
  exists la lo x y,
    m = Mark6 la lo (PyInt x) (PyInt y) (cell_count t grid_resolution points x y)
          (representative t grid_resolution points x y) /\
    cell_count t grid_resolution points x y <> 0 /\
    record_geo (representative t grid_resolution points x y) = Ok (la, lo).
Proof.
  unfold gridded_get_marks. intros H Hm.
  destruct (group_points t points grid_resolution) as [g|e'] eqn:G;
    [|inversion H; subst; contradiction].
  apply group_points_grouped in G. subst g.
  destruct (gen_from_in _ _ _ _ _ H Hm) as ([[[x y] tot] first] & Hc & Hf).
  destruct (in_grid_cells_grouped _ _ _ _ _ _ _ Hc) as [-> ->].
  unfold gridded_mark in Hf. destruct (Z.eqb _ 0) eqn:Z0; [discriminate|].
  destruct (record_geo _) as [[la lo]|e''] eqn:RG; simpl in Hf; [|discriminate].
  inversion Hf; subst; clear Hf.
  exists la, lo, x, y. repeat split; auto. apply Z.eqb_neq; exact Z0.
Qed.

(** ** The entries of [data] in the gridded style *)

Lemma process_mark_entries (t : Tile) (points : list point) (grid_resolution : Z)
    (grid_size point_width : Z) (st st' : utfgrid * Z) (la lo : R) (x y : Z) :
  (forall kv, In kv (data (fst st)) -> entry_from t points grid_resolution kv) ->
  cell_count t grid_resolution points x y <> 0 ->
  record_geo (representative t grid_resolution points x y) = Ok (la, lo) ->
  process_mark grid_size point_width st
    (Mark6 la lo (PyInt x) (PyInt y) (cell_count t grid_resolution points x y)
       (representative t grid_resolution points x y)) = Ok st' ->
  forall kv, In kv (data (fst st')) -> entry_from t points grid_resolution kv.
Proof.
  destruct st as [u next_id]. intros Hu Hc RG H. unfold process_mark in H.
  destruct (cells_to_mark grid_size (py_round (PyInt x)) (py_round (PyInt y)) point_width)
    as [|c cs].
  - inversion H; subst; exact Hu.
  - assert (Hrep : (if Z.eqb (cell_count t grid_resolution points x y) 1
                    then record_geo (representative t grid_resolution points x y)
                    else Ok (la, lo)) = Ok (la, lo))
      by (destruct (Z.eqb _ 1); [exact RG | reflexivity]).
    rewrite Hrep in H. simpl in H.
    destruct (getitem (representative t grid_resolution points x y) "data") as [d|e] eqn:D;
      simpl in H; [|discriminate].
    inversion H; subst; clear H. simpl. intros kv Hkv. apply in_app_or in Hkv.
    destruct Hkv as [Hkv|[<-|[]]]; [exact (Hu _ Hkv)|].
    exists x, y, la, lo, d. auto.
Qed.

Lemma as_grid_gridded_entries (t : Tile) (points : list point)
    (grid_resolution point_width : Z) (u : utfgrid) :
  as_grid Gridded t points grid_resolution point_width = Ok u ->
  forall kv, In kv (data u) -> entry_from t points grid_resolution kv.
Proof.
  intros H. destruct (as_grid_Ok_inv _ _ _ _ _ _ H) as (gs & marks & st & H1 & H2 & G & F & ->).
  apply (fold_result_inv_in
           (fun st => forall kv, In kv (data (fst st)) -> entry_from t points grid_resolution kv)
    (process_mark gs point_width) (blank_grid gs, 1) marks st); [| simpl; tauto | exact F].
  intros a m a' Ha Hm Hstep.
  destruct (gridded_get_marks_good _ _ _ _ _ _ G Hm) as (la & lo & x & y & -> & Hc & RG).
  exact (process_mark_entries _ _ _ _ _ _ _ _ _ _ _ Ha Hc RG Hstep).
Qed.



Lemma record_geo_record_u : record_geo record_u = Ok (1%R, 2%R).
Proof.
  transitivity (@Ok (R * R) (1 * (IZR 1 / 10 ^ 0), 1 * (IZR 2 / 10 ^ 0))%R); [reflexivity|].
  f_equal. simpl pow. f_equal; lra.
Qed.

Lemma as_grid_record_u_12 :
  as_grid Gridded tile0 [PTuple 0 0 1 record_u] 32 1 = Ok grid_record_u.
Proof.
  destruct as_grid_record_u as (la & lo & RG & H).
  rewrite record_geo_record_u in RG. inversion RG; subst. exact H.
Qed.

(** C2 (amended): in the gridded style, every entry of [data] comes from a
    cell [(x, y)] with a nonzero count: it reports that count, reports as
    [record_latitude] and [record_longitude] the two numbers parsed from the
    [meta.geo] string of the cell's representative record (the first record
    that is not [None] among the points put into the cell, in input order),
    and also carries a [geo_filter]: a GeoJSON point at
    [[record_longitude, record_latitude]] with distance ["1m"]. *)
Theorem as_grid_gridded_record_coordinates (t : Tile) (points : list point)
    (grid_resolution point_width : Z) (u : utfgrid) (k : string) (v : pyval) :
  as_grid Gridded t points grid_resolution point_width = Ok u ->
  In (k, v) (data u) ->
  exists x y la lo,
    cell_count t grid_resolution points x y <> 0 /\
    record_geo (representative t grid_resolution points x y) = Ok (la, lo) /\
    getitem v "count" = Ok (VInt (cell_count t grid_resolution points x y)) /\
    getitem v "record_latitude" = Ok (VFloat la) /\
    getitem v "record_longitude" = Ok (VFloat lo) /\
    getitem v "geo_filter" =
      Ok (VDict [("type", VStr "Point"); ("coordinates", VList [VFloat lo; VFloat la]);
                 ("distance", VStr "1m")]).
Proof.
  intros H Hkv.
  destruct (as_grid_gridded_entries _ _ _ _ _ H _ Hkv)
    as (x & y & la & lo & d & Hc & RG & D & Hv).
  simpl in Hv. subst v. exists x, y, la, lo. repeat split; auto.
Qed.

Lemma as_grid_gridded_record_coordinates_witness :
  as_grid Gridded tile0 [PTuple 0 0 1 record_u] 32 1 = Ok grid_record_u /\
  In ("1", grid_entry 1 data_u 1 2) (data grid_record_u) /\
  exists x y la lo,
    cell_count tile0 32 [PTuple 0 0 1 record_u] x y <> 0 /\
    record_geo (representative tile0 32 [PTuple 0 0 1 record_u] x y) = Ok (la, lo) /\
    getitem (grid_entry 1 data_u 1 2) "count" =
      Ok (VInt (cell_count tile0 32 [PTuple 0 0 1 record_u] x y)) /\
    getitem (grid_entry 1 data_u 1 2) "record_latitude" = Ok (VFloat la) /\
    getitem (grid_entry 1 data_u 1 2) "record_longitude" = Ok (VFloat lo) /\
    getitem (grid_entry 1 data_u 1 2) "geo_filter" =
      Ok (VDict [("type", VStr "Point"); ("coordinates", VList [VFloat lo; VFloat la]);
                 ("distance", VStr "1m")]).
Proof.
  split; [exact as_grid_record_u_12|]. split; [left; reflexivity|].
  apply (as_grid_gridded_record_coordinates tile0 [PTuple 0 0 1 record_u] 32 1 grid_record_u
           "1" (grid_entry 1 data_u 1 2));
    [exact as_grid_record_u_12 | left; reflexivity].
Defined.

(** C2 counterexample: a gridded tile with one point at (0, 0) whose record
    has [meta.geo = "1,2"]; the entry of [data] has a [geo_filter] field. *)
Lemma as_grid_gridded_geo_filter_counterexample :
  as_grid Gridded tile0 [PTuple 0 0 1 record_u] 32 1 = Ok grid_record_u /\
  data grid_record_u = [("1", grid_entry 1 data_u 1 2)] /\
  getitem (grid_entry 1 data_u 1 2) "geo_filter" =
    Ok (VDict [("type", VStr "Point"); ("coordinates", VList [VFloat 2; VFloat 1]);
               ("distance", VStr "1m")]).
Proof. split; [exact as_grid_record_u_12|]. split; reflexivity. Qed.




(** ** PlotTile.render *)

Lemma map_result_in {A B} (f : A -> result B) (l : list A) (bs : list B) (b : B) :
  map_result f l = Ok bs -> In b bs -> exists a, In a l /\ f a = Ok b.
Proof.
  revert bs; induction l as [|a l IH]; intros bs H Hb; simpl in H.
  - inversion H; subst; contradiction.
  - destruct (f a) as [b'|e] eqn:E; simpl in H; [|discriminate].
    destruct (map_result f l) as [bs'|e] eqn:M; simpl in H; [|discriminate].
    inversion H; subst; clear H. destruct Hb as [<-|Hb]; [exists a; simpl; auto|].
    destruct (IH bs' eq_refl Hb) as (a' & Ha' & Hf). exists a'; simpl; auto.
Qed.

Lemma render_single (pt : PlotTile) (b : BucketResult) (point_radius : Z)
    (point_colour : colour) (border_width : Z) (border_colour : colour)
    (resize_factor : Z) (c : colour) :
  choose_colour pt (centre_longitude b) = Ok c ->
  render pt [PBucket b] point_radius point_colour border_width border_colour resize_factor =
  Ok [mkPaste point_radius c border_width border_colour resize_factor
        (round_half_even
           (longitude_to_tile_x (plot_tile pt) (centre_longitude b) (IZR resize_factor)
            - IZR (point_radius * resize_factor))%R,
         round_half_even
           (latitude_to_tile_y (plot_tile pt) (centre_latitude b) (IZR resize_factor)
            - IZR (point_radius * resize_factor))%R)].
Proof.
  intros H. unfold render. cbn [map_result]. unfold translate_to_tile at 1.
  rewrite H. reflexivity.
Qed.

Lemma choose_colour_bucket_000 (first : pyval) (tot : Z) :
  choose_colour (new_plot_tile 0 0 0) (centre_longitude (bucket_000 first tot)) = Ok violet.
Proof.
  unfold choose_colour. cbn [colours new_plot_tile centre_longitude bucket_000].
  rewrite (py_int_of _ 0) by lra. reflexivity.
Qed.

Lemma render_000_eq (point_colour : colour) : render_000 point_colour = Ok [paste_000].
Proof. unfold render_000. rewrite (render_single _ _ _ _ _ _ _ violet); [reflexivity|].
  apply choose_colour_bucket_000. Qed.

Lemma map_result_Forall2 {A B} (f : A -> result B) (l : list A) (bs : list B) :
  map_result f l = Ok bs -> Forall2 (fun a b => f a = Ok b) l bs.
Proof.
  revert bs; induction l as [|a l IH]; intros bs H; simpl in H.
  - inversion H; subst. constructor.
  - destruct (f a) as [b|e] eqn:E; simpl in H; [|discriminate].
    destruct (map_result f l) as [bs'|e] eqn:M; simpl in H; [|discriminate].
    inversion H; subst. constructor; [exact E | apply IH; reflexivity].
Qed.

(** C4: [PlotTile.render] documents [point_colour] as the colour of the
    points, but the loop rebinds [point_colour] to [self.choose_colour(...)]:
    the argument is never used. Each bucket, in order, gets its own disc,
    filled with the colour [choose_colour] picks from that bucket's
    longitude, [colours[int(centre_longitude + 180)]] in the tile's
    violet-to-red ramp, with the border in [border_colour] and the given
    radius and border width. With [point_colour = (238, 0, 0)] the bucket of
    geohash ["000"] is drawn in violet. *)
Theorem render_fill_from_longitude :
  (forall pt buckets point_radius point_colour point_colour' border_width border_colour
      resize_factor,
    render pt buckets point_radius point_colour border_width border_colour resize_factor =
    render pt buckets point_radius point_colour' border_width border_colour resize_factor) /\
  (forall pt buckets point_radius point_colour border_width border_colour resize_factor ps,
    render pt buckets point_radius point_colour border_width border_colour resize_factor = Ok ps ->
    Forall2 (fun pb p => exists b, pb = PBucket b /\
               choose_colour pt (centre_longitude b) = Ok (paste_fill p) /\
               paste_border p = border_colour /\ paste_radius p = point_radius /\
               paste_border_width p = border_width /\ paste_resize_factor p = resize_factor)
      buckets ps) /\
  (render_000 (238, 0, 0) = Ok [paste_000] /\ paste_fill paste_000 = violet /\
   violet <> (238, 0, 0)).
Proof.
  split; [intros; reflexivity|]. split.
  - intros pt buckets pr pc bw bc rf ps H.
    eapply Forall2_impl; [|exact (map_result_Forall2 _ _ _ H)].
    intros [b|la lo tot first] p Hf; [|discriminate].
    destruct (translate_to_tile (plot_tile pt) (centre_latitude b) (centre_longitude b) (IZR rf))
      as [x y].
    destruct (choose_colour pt (centre_longitude b)) as [c|e] eqn:C; simpl in Hf; [|discriminate].
    inversion Hf; subst; clear Hf. exists b. simpl. auto 6.
  - split; [apply render_000_eq|]. split; [reflexivity|]. discriminate.
Qed.

Lemma render_fill_from_longitude_witness :
  render_000 (238, 0, 0) = Ok [paste_000] /\
  Forall2 (fun pb p => exists b, pb = PBucket b /\
             choose_colour (new_plot_tile 0 0 0) (centre_longitude b) = Ok (paste_fill p) /\
             paste_border p = (0, 0, 0) /\ paste_radius p = 5 /\
             paste_border_width p = 1 /\ paste_resize_factor p = 1)
    [PBucket (bucket_000 VNone 1)] [paste_000].
Proof.
  split; [apply render_000_eq|].
  apply (proj1 (proj2 render_fill_from_longitude) (new_plot_tile 0 0 0)
           [PBucket (bucket_000 VNone 1)] 5 (238, 0, 0) 1 (0, 0, 0) 1 [paste_000]).
  exact (render_000_eq (238, 0, 0)).
Defined.

(** ** The characters of the grid *)

Lemma latitude_to_y_tile0_45_bounds : (0 < 2 * latitude_to_y tile0 45 < 1)%R.
Proof.
  rewrite latitude_to_y_tile0_45. destruct ln_1_sqrt2_bounds as [H0 H1].
  pose proof PI_RGT_0 as HP.
  assert (0 < ln (1 + sqrt 2) / PI)%R by (apply Rdiv_lt_0_compat; lra).
  assert (ln (1 + sqrt 2) / PI < 1)%R.
  { apply (Rmult_lt_reg_r PI); [lra|]. unfold Rdiv.
    rewrite Rmult_assoc, Rinv_l by lra. lra. }
  lra.
Qed.

Lemma group_points_three :
  group_points tile0 [PTuple 45 (-90) 2 record_0; PTuple 45 90 2 record_0;
                      PTuple 0 (-90) 2 record_0] 128 =
  Ok [[(2, record_0); (2, record_0)]; [(2, record_0); (0, VNone)]].
Proof.
  change (group_points tile0 [PTuple 45 (-90) 2 record_0; PTuple 45 90 2 record_0;
                              PTuple 0 (-90) 2 record_0] 128) with
    (fold_result (group_point tile0 2 (IZR 2 / IZR 256)) (repeat (repeat (0, VNone) 2) 2)
       [PTuple 45 (-90) 2 record_0; PTuple 45 90 2 record_0; PTuple 0 (-90) 2 record_0]).
  pose proof latitude_to_y_tile0_45_bounds as HY.
  assert (T : forall la lo x y, (-180 <= lo <= 180)%R ->
            x = ((lo + 180) / 180)%R -> y = (2 * latitude_to_y tile0 la)%R ->
            translate_to_tile tile0 la lo (IZR 2 / IZR 256) = (x, y)).
  { intros la lo x y Hlo -> ->. rewrite translate_to_tile_tile0 by exact Hlo.
    f_equal; field. }
  unfold fold_result.
  rewrite (group_point_at _ _ _ _ _ _ _ _ (1 / 2) (2 * latitude_to_y tile0 45))
    by (try apply T; lra).
  rewrite (py_int_of (1 / 2) 0) by lra.
  rewrite (py_int_of (2 * latitude_to_y tile0 45) 0) by lra.
  cbn [bind].
  rewrite (group_point_at _ _ _ _ _ _ _ _ (3 / 2) (2 * latitude_to_y tile0 45))
    by (try apply T; lra).
  rewrite (py_int_of (3 / 2) 1) by lra.
  rewrite (py_int_of (2 * latitude_to_y tile0 45) 0) by lra.
  cbn [bind].
  rewrite (group_point_at _ _ _ _ _ _ _ _ (1 / 2) 1)
    by (try (apply T; [lra | lra | rewrite latitude_to_y_tile0_0]); lra).
  rewrite (py_int_of (1 / 2) 0) by lra.
  rewrite (py_int_of 1 1) by lra.
  reflexivity.
Qed.

Lemma as_grid_three :
  exists u, as_grid Gridded tile0 [PTuple 45 (-90) 2 record_0; PTuple 45 90 2 record_0;
                                   PTuple 0 (-90) 2 record_0] 128 3 = Ok u /\
    grid u = [[36%Z; 35%Z]; [36%Z; 36%Z]] /\ keys u = [""; "1"; "2"; "3"].
Proof.
  eexists. split.
  - unfold as_grid. cbn [get_marks]. unfold gridded_get_marks.
    rewrite group_points_three. reflexivity.
  - split; reflexivity.
Qed.

(** ** Ids in the grid *)

Ltac cases_leb :=
  repeat match goal with
         | |- context [Z.leb ?a ?b] => destruct (Z.leb_spec a b)
         end; lia.

Lemma encode_id_bounds (k : Z) : 1 <= k -> 33 <= encode_id k.
Proof.
  unfold encode_id. intros Hk. cases_leb.
Qed.

Lemma decode_encode_id (k : Z) : 1 <= k -> decode_id (encode_id k) = k.
Proof.
  unfold decode_id, encode_id. intros Hk. cases_leb.
Qed.

Lemma encode_id_not_space (k : Z) : 1 <= k -> encode_id k <> space.
Proof. intros Hk. pose proof (encode_id_bounds k Hk). unfold space. lia. Qed.

Lemma in_zrange (a b k : Z) : In k (zrange a b) <-> a <= k < b.
Proof.
  unfold zrange. rewrite in_map_iff. split.
  - intros (i & <- & Hi). apply in_seq in Hi. lia.
  - intros Hk. exists (Z.to_nat (k - a)). split; [lia|]. apply in_seq. lia.
Qed.

Lemma length_zrange (a b : Z) : List.length (zrange a b) = Z.to_nat (b - a).
Proof. unfold zrange. now rewrite length_map, length_seq. Qed.

Lemma NoDup_zrange (a b : Z) : NoDup (zrange a b).
Proof.
  unfold zrange. apply NoDup_map_NoDup_ForallPairs; [|apply seq_NoDup].
  intros i j _ _ H. lia.
Qed.

(** With [point_width <= 1] a mark paints its own cell when it lies in
    the grid, and nothing otherwise. *)
Lemma cells_to_mark_narrow (grid_size x y point_width : Z) :
  point_width <= 1 ->
  cells_to_mark grid_size x y point_width = [] \/
  (cells_to_mark grid_size x y point_width = [(y, x)] /\
   0 <= x < grid_size /\ 0 <= y < grid_size).
Proof.
  intros Hpw. unfold cells_to_mark, get_points_to_mark.
  destruct (Z.eqb_spec (Z.div point_width 2) 0) as [H0|H0]; simpl negb; cbv iota.
  - simpl flat_map.
    destruct (Z.leb_spec 0 x); destruct (Z.ltb_spec x grid_size);
      destruct (Z.leb_spec 0 y); destruct (Z.ltb_spec y grid_size); simpl; auto.
  - left. assert (Hn : point_width / 2 < 0).
    { destruct (Z.lt_ge_cases point_width 0) as [Hl|Hl].
      - apply Z.div_lt_upper_bound; lia.
      - exfalso. apply H0. apply Z.div_small. lia. }
    unfold zrange. replace (Z.to_nat (point_width / 2 + 1 - - (point_width / 2))) with O by lia.
    reflexivity.
Qed.

Lemma map_fst_combine {A B} (l1 : list A) (l2 : list B) :
  List.length l1 = List.length l2 -> map fst (combine l1 l2) = l1.
Proof.
  revert l2; induction l1 as [|a l1 IH]; intros [|b l2] H; simpl in *; try discriminate; auto.
  f_equal. apply IH. lia.
Qed.

Lemma in_enumerate_bounds {A} (l : list A) (i : Z) (a : A) :
  In (i, a) (enumerate l) -> 0 <= i < Z.of_nat (List.length l).
Proof.
  unfold enumerate. intros H. apply in_combine_l, in_map_iff in H as (k & <- & Hk).
  apply in_seq in Hk. lia.
Qed.

Lemma NoDup_enumerate_fst {A} (l : list A) : NoDup (map fst (enumerate l)).
Proof.
  unfold enumerate. rewrite map_fst_combine by (rewrite length_map, length_seq; reflexivity).
  apply NoDup_map_NoDup_ForallPairs; [|apply seq_NoDup]. intros i j _ _ H. lia.
Qed.

Lemma NoDup_flat_map_keyed {A B K} (key : A -> K) (G : A -> list B) (kb : B -> K) (L : list A) :
  NoDup (map key L) ->
  (forall a, In a L -> NoDup (G a)) ->
  (forall a b, In a L -> In b (G a) -> kb b = key a) ->
  NoDup (flat_map G L).
Proof.
  induction L as [|a L IH]; intros Hk HG Hkb; simpl; [constructor|].
  inversion Hk as [|ka kl Hka HkL]; subst.
  apply NoDup_app.
  - apply HG; left; reflexivity.
  - apply IH; [exact HkL | intros a' Ha'; apply HG; right; exact Ha' |].
    intros a' b Ha' Hb. apply Hkb; [right|]; assumption.
  - intros b Hb Hb'. apply in_flat_map in Hb' as (a' & Ha' & Hb'').
    apply Hka. rewrite <- (Hkb a b (or_introl eq_refl) Hb), (Hkb a' b (or_intror Ha') Hb'').
    apply in_map; exact Ha'.
Qed.

Lemma NoDup_grid_cells_pos (g : list (list (Z * pyval))) :
  NoDup (map cell_pos (grid_cells g)).
Proof.
  unfold grid_cells. rewrite flat_map_concat_map, concat_map, map_map, <- flat_map_concat_map.
  apply (NoDup_flat_map_keyed fst _ snd).
  - apply NoDup_enumerate_fst.
  - intros [y row] _. rewrite map_map.
    replace (map _ (enumerate row)) with (map (fun x => (x, y)) (map fst (enumerate row))).
    + apply NoDup_map_NoDup_ForallPairs; [|apply NoDup_enumerate_fst].
      intros a b _ _ H. inversion H; reflexivity.
    + rewrite map_map. apply map_ext. intros [x [c f]]. reflexivity.
  - intros [y row] p _ Hp. rewrite map_map in Hp. apply in_map_iff in Hp as ([x [c f]] & <- & _).
    reflexivity.
Qed.

Lemma gen_from_NoDup {A B K} (f : A -> option (result B)) (posA : A -> K) (posB : B -> K)
    (l : list A) (bs : list B) (e : option exn) :
  gen_from f l = (bs, e) ->
  (forall a b, f a = Some (Ok b) -> posB b = posA a) ->
  NoDup (map posA l) -> NoDup (map posB bs).
Proof.
  intros H Hpos. revert bs H; induction l as [|a l IH]; intros bs H Hnd; simpl in H.
  - inversion H; subst; constructor.
  - inversion Hnd as [|pa pl Hpa Hpl]; subst. destruct (f a) as [[b|e']|] eqn:E.
    + destruct (gen_from f l) as [bs' e''] eqn:GF. inversion H; subst; clear H.
      simpl. constructor; [|exact (IH bs' eq_refl Hpl)].
      intros Hin. apply in_map_iff in Hin as (b' & Hb' & Hin).
      destruct (gen_from_in _ _ _ _ _ GF Hin) as (a' & Ha' & Hf).
      apply Hpa. rewrite <- (Hpos a b E), <- Hb', (Hpos a' b' Hf). apply in_map; exact Ha'.
    + inversion H; subst; constructor.
    + exact (IH bs H Hpl).
Qed.

Lemma gridded_get_marks_NoDup (t : Tile) (points : list point) (grid_resolution : Z)
    (marks : list mark) (e : option exn) :
  gridded_get_marks t points grid_resolution = (marks, e) -> NoDup (map mark_pos marks).
Proof.
  unfold gridded_get_marks. intros H.
  destruct (group_points t points grid_resolution) as [g|e'];
    [|inversion H; subst; constructor].
  apply (gen_from_NoDup _ cell_pos mark_pos _ _ _ H); [|apply NoDup_grid_cells_pos].
  intros [[[x y] tot] first] m Hf. unfold gridded_mark in Hf.
  destruct (Z.eqb tot 0); [discriminate|].
  destruct (record_geo first) as [ll|e'']; simpl in Hf; inversion Hf; reflexivity.
Qed.

Lemma nth_error_update_nth_neq {A} (n m : nat) (f : A -> A) (l : list A) :
  m <> n -> nth_error (update_nth n f l) m = nth_error l m.
Proof.
  revert n m; induction l as [|a l IH]; intros [|n] [|m] H; simpl; auto; try lia.
Qed.

Lemma nth_error_update_nth_eq {A} (n : nat) (f : A -> A) (l : list A) :
  nth_error (update_nth n f l) n = option_map f (nth_error l n).
Proof. revert n; induction l as [|a l IH]; intros [|n]; simpl; auto. Qed.

Lemma cell_set_cell_neq (enc : Z) (g : list (list Z)) (y x y0 x0 : Z) :
  0 <= y -> 0 <= x -> 0 <= y0 -> 0 <= x0 -> (x, y) <> (x0, y0) ->
  cell (set_cell enc g (y0, x0)) y x = cell g y x.
Proof.
  intros Hy Hx Hy0 Hx0 Hne. unfold cell, set_cell. simpl fst. simpl snd.
  destruct (Z.eq_dec y y0) as [->|Hyy].
  - rewrite nth_error_update_nth_eq. destruct (nth_error g (Z.to_nat y0)) as [row|]; simpl; auto.
    apply nth_error_update_nth_neq. intros E. apply Hne. f_equal. lia.
  - rewrite nth_error_update_nth_neq by lia. reflexivity.
Qed.

Lemma cell_set_cell_eq (enc : Z) (g : list (list Z)) (row : list Z) (y0 x0 : Z) :
  nth_error g (Z.to_nat y0) = Some row -> (Z.to_nat x0 < List.length row)%nat ->
  cell (set_cell enc g (y0, x0)) y0 x0 = Some enc.
Proof.
  intros Hrow Hx. unfold cell, set_cell. simpl fst. simpl snd.
  rewrite nth_error_update_nth_eq, Hrow. simpl. rewrite nth_error_update_nth_eq.
  destruct (nth_error row (Z.to_nat x0)) eqn:E; [reflexivity|].
  apply nth_error_None in E. lia.
Qed.

Lemma cell_in_concat (g : list (list Z)) (y x c : Z) :
  cell g y x = Some c -> In c (List.concat g).
Proof.
  unfold cell. intros H. destruct (nth_error g (Z.to_nat y)) as [row|] eqn:E; [|discriminate].
  apply in_concat. exists row. split; eapply nth_error_In; eauto.
Qed.

Lemma chars_ok_mono (n n' : Z) (g : list (list Z)) : n <= n' -> chars_ok n g -> chars_ok n' g.
Proof.
  intros Hn H row c Hrow Hc. destruct (H row c Hrow Hc) as [->|(k & Hk & ->)]; [left; auto|].
  right. exists k. split; [lia | reflexivity].
Qed.

Lemma chars_ok_set_cell (m n : Z) (g : list (list Z)) (yx : Z * Z) :
  1 <= m < n -> chars_ok n g -> chars_ok n (set_cell (encode_id m) g yx).
Proof.
  intros Hm H row c Hrow Hc. unfold set_cell in Hrow.
  destruct (in_update_nth _ _ _ _ Hrow) as [Hrow'|(row0 & Hrow0 & ->)]; [exact (H _ _ Hrow' Hc)|].
  destruct (in_update_nth _ _ _ _ Hc) as [Hc'|(c0 & Hc0 & ->)]; [exact (H _ _ Hrow0 Hc')|].
  right. exists m. auto.
Qed.

Lemma chars_ok_fold_set_cell (m n : Z) (cells : list (Z * Z)) (g : list (list Z)) :
  1 <= m < n -> chars_ok n g -> chars_ok n (fold_left (set_cell (encode_id m)) cells g).
Proof.
  revert g; induction cells as [|c cells IH]; intros g Hm H; simpl; [exact H|].
  apply IH; [exact Hm|]. apply chars_ok_set_cell; assumption.
Qed.

Lemma fold_result_inv_rest {A B} (P : A -> list B -> Prop) (f : A -> B -> result A)
    (acc : A) (l : list B) (r : A) :
  (forall a b rest a', P a (b :: rest) -> f a b = Ok a' -> P a' rest) ->
  P acc l -> fold_result f acc l = Ok r -> P r [].
Proof.
  intros Hf. revert acc; induction l as [|b l IH]; intros acc Hacc H; simpl in H.
  - inversion H; subst; assumption.
  - destruct (f acc b) as [a|e] eqn:E; simpl in H; [|discriminate].
    eapply IH; [eapply Hf; eauto | exact H].
Qed.

Lemma process_mark_invariant (grid_size point_width : Z) (st st' : utfgrid * Z)
    (m : mark) (rest : list mark) :
  grid_invariant grid_size point_width st (m :: rest) ->
  process_mark grid_size point_width st m = Ok st' ->
  grid_invariant grid_size point_width st' rest.
Proof.
  intros Hinv H.
  assert (Hshape : grid_shape grid_size (fst st')).
  { destruct st as [u n]. apply (process_mark_shape grid_size point_width (u, n) st' m);
      [exact (proj1 Hinv) | exact H]. }
  destruct st as [u n].
  destruct Hinv as (Hsh & Hn & Hkeys & Hchars & Hnd & Hsurj).
  simpl in Hnd. apply NoDup_cons_iff in Hnd as [Hpm Hpr].
  unfold process_mark in H. destruct m as [la lo x y tot first|]; [|discriminate].
  destruct (cells_to_mark grid_size (py_round x) (py_round y) point_width) as [|c cs] eqn:E.
  - injection H as H. subst st'. simpl.
    refine (conj Hsh (conj Hn (conj Hkeys (conj Hchars (conj Hpr _))))).
    intros Hpw k Hk. destruct (Hsurj Hpw k Hk) as (y' & x' & Hy' & Hx' & Hc & Hnin).
    exists y', x'. repeat split; auto. intros Hin. apply Hnin. right; exact Hin.
  - destruct (if Z.eqb tot 1 then record_geo first else Ok (la, lo)) as [rep|e];
      simpl in H; [|discriminate].
    destruct (getitem first "data") as [d|e]; simpl in H; [|discriminate].
    injection H as H. subst st'. simpl in Hshape |- *.
    split; [exact Hshape|]. split; [lia|]. split.
    { rewrite length_app. simpl. lia. }
    split.
    { apply chars_ok_fold_set_cell; [lia|]. apply chars_ok_set_cell; [lia|].
      apply (chars_ok_mono n); [lia | exact Hchars]. }
    split; [exact Hpr|].
    intros Hpw k Hk.
    destruct (cells_to_mark_narrow grid_size (py_round x) (py_round y) point_width Hpw)
      as [E'|(E' & Hx & Hy)]; rewrite E in E'; [discriminate|].
    inversion E'; subst c cs. simpl fold_left.
    destruct (Z.eq_dec k n) as [->|Hkn].
    + destruct Hsh as (Hlen & Hrows & _).
      destruct (nth_error (grid u) (Z.to_nat (py_round y))) as [row|] eqn:R.
      * exists (py_round y), (py_round x). split; [lia|]. split; [lia|]. split.
        -- apply (cell_set_cell_eq _ _ row); [exact R|].
           rewrite Forall_forall in Hrows. rewrite (Hrows row (nth_error_In _ _ R)). lia.
        -- exact Hpm.
      * apply nth_error_None in R. lia.
    + destruct (Hsurj Hpw k ltac:(lia)) as (y' & x' & Hy' & Hx' & Hc & Hnin).
      exists y', x'. split; [exact Hy'|]. split; [exact Hx'|]. split.
      * rewrite cell_set_cell_neq by (try lia; intros Heq; apply Hnin; left; exact (eq_sym Heq)).
        exact Hc.
      * intros Hin. apply Hnin. right; exact Hin.
Qed.

Lemma blank_grid_invariant (grid_size point_width : Z) (marks : list mark) :
  NoDup (map mark_pos marks) ->
  grid_invariant grid_size point_width (blank_grid grid_size, 1) marks.
Proof.
  intros Hnd. simpl. split; [apply blank_grid_shape|]. split; [lia|]. split; [reflexivity|].
  split; [|split; [exact Hnd | intros _ k Hk; lia]].
  intros row c Hrow Hc. left. simpl in Hrow. apply repeat_spec in Hrow. subst.
  apply repeat_spec in Hc. exact Hc.
Qed.

Lemma as_grid_gridded_invariant (t : Tile) (points : list point)
    (grid_resolution point_width : Z) (u : utfgrid) :
  as_grid Gridded t points grid_resolution point_width = Ok u ->
  exists grid_size n, grid_invariant grid_size point_width (u, n) [].
Proof.
  intros H. destruct (as_grid_Ok_inv _ _ _ _ _ _ H) as (gs & marks & [u' n] & H1 & H2 & G & F & ->).
  exists gs, n.
  apply (fold_result_inv_rest (grid_invariant gs point_width) (process_mark gs point_width)
           (blank_grid gs, 1) marks (u', n)); [| | exact F].
  - intros a b rest a' Ha Hab. exact (process_mark_invariant _ _ _ _ _ _ Ha Hab).
  - apply blank_grid_invariant. exact (gridded_get_marks_NoDup _ _ _ _ _ G).
Qed.

Lemma nodup_length_eq (L E : list Z) :
  NoDup E -> incl E L -> incl L E -> List.length (nodup Z.eq_dec L) = List.length E.
Proof.
  intros HE H1 H2. apply Nat.le_antisymm.
  - apply NoDup_incl_length; [apply NoDup_nodup|]. intros a Ha.
    apply nodup_In in Ha. exact (H2 a Ha).
  - apply NoDup_incl_length; [exact HE|]. intros a Ha. apply nodup_In. exact (H1 a Ha).
Qed.

Lemma in_nonspace_chars (u : utfgrid) (c : Z) :
  In c (nonspace_chars u) <-> In c (List.concat (grid u)) /\ c <> space.
Proof.
  unfold nonspace_chars. rewrite filter_In. rewrite negb_true_iff, Z.eqb_neq. tauto.
Qed.

(** C7 (amended): in a gridded-style UTFGrid returned by [as_grid], every
    non-space character is the code [enc(k)] of an index [k] in
    [[1, len(keys) - 1]], and decodes back to it; when [point_width <= 1]
    the number of distinct non-space characters is [len(keys) - 1]. *)
Theorem as_grid_gridded_ids (t : Tile) (points : list point)
    (grid_resolution point_width : Z) (u : utfgrid) :
  as_grid Gridded t points grid_resolution point_width = Ok u ->
  (forall c, In c (nonspace_chars u) ->
     1 <= decode_id c <= Z.of_nat (List.length (keys u)) - 1 /\ encode_id (decode_id c) = c) /\
  (point_width <= 1 -> distinct_nonspace u = (List.length (keys u) - 1)%nat).
Proof.
  intros H. destruct (as_grid_gridded_invariant _ _ _ _ _ H)
    as (gs & n & _ & Hn & Hkeys & Hchars & _ & Hsurj).
  assert (Hc : forall c, In c (nonspace_chars u) ->
                 exists k, 1 <= k < n /\ c = encode_id k).
  { intros c Hin. apply in_nonspace_chars in Hin as [Hin Hsp].
    apply in_concat in Hin as (row & Hrow & Hin).
    destruct (Hchars row c Hrow Hin) as [->|Hk]; [contradiction|exact Hk]. }
  split.
  - intros c Hin. destruct (Hc c Hin) as (k & Hk & ->).
    rewrite decode_encode_id by lia. split; [lia | reflexivity].
  - intros Hpw. unfold distinct_nonspace.
    rewrite (nodup_length_eq _ (map encode_id (zrange 1 n))).
    + rewrite length_map, length_zrange. lia.
    + apply NoDup_map_NoDup_ForallPairs; [|apply NoDup_zrange].
      intros a b Ha Hb Hab. apply in_zrange in Ha, Hb.
      rewrite <- (decode_encode_id a), <- (decode_encode_id b) by lia. rewrite Hab. reflexivity.
    + intros c Hin. apply in_map_iff in Hin as (k & <- & Hk). apply in_zrange in Hk.
      destruct (Hsurj Hpw k Hk) as (y & x & _ & _ & Hcell & _).
      apply in_nonspace_chars. split; [exact (cell_in_concat _ _ _ _ Hcell)|].
      apply encode_id_not_space. lia.
    + intros c Hin. destruct (Hc c Hin) as (k & Hk & ->). apply in_map. apply in_zrange. exact Hk.
Qed.

Lemma as_grid_three_narrow :
  exists u, as_grid Gridded tile0 [PTuple 45 (-90) 2 record_0; PTuple 45 90 2 record_0;
                                   PTuple 0 (-90) 2 record_0] 128 1 = Ok u /\
    grid u = [[33%Z; 35%Z]; [36%Z; 32%Z]] /\ keys u = [""; "1"; "2"; "3"].
Proof.
  eexists. split.
  - unfold as_grid. cbn [get_marks]. unfold gridded_get_marks.
    rewrite group_points_three. reflexivity.
  - split; reflexivity.
Qed.

Lemma as_grid_gridded_ids_witness :
  exists u, as_grid Gridded tile0 [PTuple 45 (-90) 2 record_0; PTuple 45 90 2 record_0;
                                   PTuple 0 (-90) 2 record_0] 128 1 = Ok u /\
    (forall c, In c (nonspace_chars u) ->
       1 <= decode_id c <= Z.of_nat (List.length (keys u)) - 1 /\ encode_id (decode_id c) = c) /\
    (1 <= 1 -> distinct_nonspace u = (List.length (keys u) - 1)%nat).
Proof.
  destruct as_grid_three_narrow as (u & H & _). exists u. split; [exact H|].
  exact (as_grid_gridded_ids tile0 _ 128 1 u H).
Defined.

(** C7 counterexample: three points in the cells (0, 0), (1, 0) and (0, 1)
    of a 2 x 2 grid, painted with [point_width = 3]; each later plus shape
    covers the earlier marks' cells, so the grid shows two distinct ids
    while [keys] lists three. *)
Lemma as_grid_gridded_distinct_ids_counterexample :
  exists u, as_grid Gridded tile0 [PTuple 45 (-90) 2 record_0; PTuple 45 90 2 record_0;
                                   PTuple 0 (-90) 2 record_0] 128 3 = Ok u /\
    grid u = [[36%Z; 35%Z]; [36%Z; 36%Z]] /\
    distinct_nonspace u = 2%nat /\ (List.length (keys u) - 1 = 3)%nat.
Proof.
  destruct as_grid_three as (u & H & G & K). exists u.
  unfold distinct_nonspace, nonspace_chars. rewrite G, K. repeat split; [exact H].
Qed.


(** * Further properties of the code *)

Lemma land_pow2_pred (k : Z) : 0 <= k -> Z.land (2 ^ k) (2 ^ k - 1) = 0.
Proof.
  intros Hk. replace (2 ^ k - 1) with (Z.ones k) by (rewrite Z.ones_equiv; lia).
  rewrite Z.land_ones by exact Hk. apply Z.mod_same. apply Z.pow_nonzero; lia.
Qed.

(** X1: is_power_of_two(number) is True exactly when number is 2**k for some k >= 0; in particular 0 and every negative number give False. *)
Theorem is_power_of_two_iff (number : Z) :
  is_power_of_two number = true <-> exists k, 0 <= k /\ number = 2 ^ k.
Proof.
  unfold is_power_of_two. rewrite andb_true_iff, negb_true_iff, !Z.eqb_neq, Z.eqb_eq.
  split.
  - intros [Hnz Hland].
    destruct (Z.lt_trichotomy number 0) as [Hneg | [Hz | Hpos]]; [| lia |].
    + exfalso. assert (Z.land number (number - 1) < 0) by (apply Z.land_neg; lia). lia.
    + exists (Z.log2 number). split; [apply Z.log2_nonneg|].
      destruct (Z.log2_spec number Hpos) as [Hlo Hhi].
      destruct (Z.eq_dec number (2 ^ Z.log2 number)) as [E|Hne]; [exact E|exfalso].
      assert (0 < 2 ^ Z.log2 number) by (apply Z.pow_pos_nonneg; [lia | apply Z.log2_nonneg]).
      assert (Hl : Z.log2 (number - 1) = Z.log2 number).
      { apply Z.log2_unique; [apply Z.log2_nonneg | lia]. }
      assert (Hb : Z.testbit (Z.land number (number - 1)) (Z.log2 number) = true).
      { rewrite Z.land_spec, Z.bit_log2 by lia. rewrite <- Hl. rewrite Z.bit_log2 by lia. reflexivity. }
      rewrite Hland, Z.testbit_0_l in Hb. discriminate.
  - intros (k & Hk & ->). split.
    + apply Z.pow_nonzero; lia.
    + apply land_pow2_pred. exact Hk.
Qed.

(** X2: When minimum <= maximum, clamp(value, minimum, maximum) lies in [minimum, maximum] and is value itself when value is already in that range; when maximum < minimum it returns minimum. *)
Theorem clamp_range (value minimum maximum : Z) :
  (minimum <= maximum ->
     minimum <= clamp value minimum maximum <= maximum /\
     (minimum <= value <= maximum -> clamp value minimum maximum = value)) /\
  (maximum < minimum -> clamp value minimum maximum = minimum).
Proof. unfold clamp. split; [intros H; split; [|intros]|intros]; lia. Qed.

Lemma clampR_range (v lo hi : R) : (lo <= hi)%R ->
  (lo <= clampR v lo hi <= hi)%R /\ ((lo <= v <= hi)%R -> clampR v lo hi = v).
Proof.
  unfold clampR, Rmax, Rmin. intros H.
  destruct (Rle_dec v hi); destruct (Rle_dec lo _); split; try intros; lra.
Qed.

(** X3: lat_lon_clamp returns a latitude in [-85.0511, 85.0511] and a longitude in [-180, 180], and returns a pair already inside those ranges unchanged. *)
Theorem lat_lon_clamp_bounds (pair : R * R) :
  let '(lat, lon) := lat_lon_clamp pair in
  (-850511 / 10000 <= lat <= 850511 / 10000)%R /\ (-180 <= lon <= 180)%R /\
  ((-850511 / 10000 <= fst pair <= 850511 / 10000)%R -> (-180 <= snd pair <= 180)%R ->
   lat_lon_clamp pair = pair).
Proof.
  destruct pair as [la lo]. unfold lat_lon_clamp; simpl.
  destruct (clampR_range la (-850511 / 10000) (850511 / 10000)) as [H1 H1']; [lra|].
  destruct (clampR_range lo (-180) 180) as [H2 H2']; [lra|].
  split; [exact H1|]. split; [exact H2|]. intros Ha Hb. rewrite H1', H2' by assumption. reflexivity.
Qed.

(** X4: For point ids 1 <= a < b the UTFGrid code points of get_point_id_generator satisfy 33 <= encode(a) < encode(b), and no id is encoded as 34 (double quote) or 92 (backslash). *)
Theorem encode_id_increasing (a b : Z) :
  1 <= a < b -> 33 <= encode_id a < encode_id b /\
  encode_id a <> 34 /\ encode_id a <> 92.
Proof. unfold encode_id. intros H. cases_leb. Qed.

(** X5: With offset = point_width // 2, get_points_to_mark(x, y, point_width) yields (a, b) exactly when offset = 0 and (a, b) = (x, y), or offset <> 0, |a - x| <= offset, |b - y| <= offset and (a, b) is not a corner of that square. *)
Theorem get_points_to_mark_cells (x y point_width a b : Z) :
  In (a, b) (get_points_to_mark x y point_width) <->
  let offset := point_width / 2 in
  if Z.eqb offset 0 then a = x /\ b = y
  else - offset <= a - x <= offset /\ - offset <= b - y <= offset /\
       ~ (Z.abs (a - x) = offset /\ Z.abs (b - y) = offset).
Proof.
  unfold get_points_to_mark. cbv zeta.
  destruct (Z.eqb_spec (point_width / 2) 0) as [E|E]; simpl.
  - split; [intros [H|[]]; injection H; lia | intros [-> ->]; left; reflexivity].
  - rewrite in_flat_map. split.
    + intros (i & Hi & Hin). apply in_zrange in Hi. apply in_flat_map in Hin as (j & Hj & Hin).
      apply in_zrange in Hj.
      destruct ((Z.eqb (Z.abs i) (point_width / 2)) && (Z.eqb (Z.abs j) (point_width / 2))) eqn:Hc;
        [destruct Hin|].
      destruct Hin as [H|[]]. injection H as <- <-.
      rewrite andb_false_iff, !Z.eqb_neq in Hc. lia.
    + intros (Ha & Hb & Hn). exists (a - x). split; [apply in_zrange; lia|].
      apply in_flat_map. exists (b - y). split; [apply in_zrange; lia|].
      replace ((Z.eqb (Z.abs (a - x)) (point_width / 2)) && (Z.eqb (Z.abs (b - y)) (point_width / 2)))
        with false.
      * left. f_equal; lia.
      * symmetry. rewrite andb_false_iff, !Z.eqb_neq. lia.
Qed.

Lemma NoDup_flat_map_inj {A B} (f : A -> list B) (l : list A) :
  NoDup l -> (forall a, In a l -> NoDup (f a)) ->
  (forall a a' b, In a l -> In a' l -> In b (f a) -> In b (f a') -> a = a') ->
  NoDup (flat_map f l).
Proof.
  induction l as [|a l IH]; simpl; intros Hl Hf Hdis; [constructor|].
  apply NoDup_cons_iff in Hl as [Hna Hl].
  apply NoDup_app.
  - apply Hf. left; reflexivity.
  - apply IH; [exact Hl| intros; apply Hf; right; assumption |].
    intros a1 a2 b H1 H2 H3 H4. apply (Hdis a1 a2 b); [right|right|..]; assumption.
  - intros b Hb Hb'. apply in_flat_map in Hb' as (a' & Ha' & Hb').
    assert (a = a') as <- by (apply (Hdis a a' b); [left; reflexivity|right|..]; assumption).
    contradiction.
Qed.

(** X6: get_points_to_mark never yields the same cell twice. *)
Theorem get_points_to_mark_NoDup (x y point_width : Z) :
  NoDup (get_points_to_mark x y point_width).
Proof.
  unfold get_points_to_mark. destruct (negb _); [|constructor; [intros []|constructor]].
  apply NoDup_flat_map_inj; [apply NoDup_zrange| |].
  - intros i _. apply NoDup_flat_map_inj; [apply NoDup_zrange| |].
    + intros j _. destruct (_ && _); [constructor|constructor; [intros []|constructor]].
    + intros j j' p _ _ H1 H2. destruct (_ && _); [destruct H1|]. destruct (_ && _); [destruct H2|].
      destruct H1 as [H1|[]]; destruct H2 as [H2|[]]. rewrite <- H2 in H1. injection H1. lia.
  - intros i i' p _ _ H1 H2. apply in_flat_map in H1 as (j & _ & H1).
    apply in_flat_map in H2 as (j' & _ & H2).
    destruct (_ && _); [destruct H1|]. destruct (_ && _); [destruct H2|].
    destruct H1 as [H1|[]]; destruct H2 as [H2|[]]. rewrite <- H2 in H1. injection H1. lia.
Qed.

Lemma length_flat_map_weighted {A B} (F : A -> list B) (p : A -> bool) (n c : Z) (l : list A) :
  (forall a, In a l -> Z.of_nat (List.length (F a)) = n - if p a then c else 0) ->
  Z.of_nat (List.length (flat_map F l)) =
    n * Z.of_nat (List.length l) - c * Z.of_nat (List.length (filter p l)).
Proof.
  induction l as [|a l IH]; simpl; intros H; [lia|].
  rewrite length_app, Nat2Z.inj_add, (H a (or_introl eq_refl)).
  rewrite IH by (intros a' Ha'; apply H; right; exact Ha').
  destruct (p a); simpl; lia.
Qed.

Lemma NoDup_length_two {A} (l : list A) (a b : A) :
  a <> b -> NoDup l -> (forall z, In z l <-> z = a \/ z = b) -> List.length l = 2%nat.
Proof.
  intros Hab Hl Hin.
  assert (List.length l <= List.length [a; b])%nat.
  { apply NoDup_incl_length; [exact Hl|]. intros z Hz. apply Hin in Hz. destruct Hz as [-> | ->]; simpl; auto. }
  assert (List.length [a; b] <= List.length l)%nat.
  { apply NoDup_incl_length.
    - constructor; [simpl; intros [E|[]]; congruence | constructor; [intros []|constructor]].
    - intros z Hz. apply Hin. simpl in Hz. destruct Hz as [<- | [<- | []]]; auto. }
  simpl in *. lia.
Qed.

Lemma count_abs_edge (o : Z) : 1 <= o ->
  List.length (filter (fun j => Z.eqb (Z.abs j) o) (zrange (- o) (o + 1))) = 2%nat.
Proof.
  intros Ho. apply (NoDup_length_two _ (- o) o); [lia|apply NoDup_filter, NoDup_zrange|].
  intros z. rewrite filter_In, in_zrange, Z.eqb_eq. lia.
Qed.

(** X7: get_points_to_mark yields 1 cell when point_width // 2 = 0, (2 * offset + 1)^2 - 4 cells when offset = point_width // 2 > 0, and none when offset < 0. *)
Theorem get_points_to_mark_count (x y point_width : Z) :
  let offset := point_width / 2 in
  Z.of_nat (List.length (get_points_to_mark x y point_width)) =
  if Z.eqb offset 0 then 1 else if Z.ltb offset 0 then 0 else (2 * offset + 1) ^ 2 - 4.
Proof.
  unfold get_points_to_mark. cbv zeta. set (o := point_width / 2).
  destruct (Z.eqb_spec o 0) as [E|E]; cbn [negb]; [reflexivity|].
  destruct (Z.ltb_spec o 0) as [Hn|Hp].
  - unfold zrange. replace (Z.to_nat (o + 1 - - o)) with 0%nat by lia. reflexivity.
  - rewrite (length_flat_map_weighted _ (fun i => Z.eqb (Z.abs i) o) (2 * o + 1) 2).
    + rewrite length_zrange, count_abs_edge, Z2Nat.id by lia. change (Z.of_nat 2) with 2. ring.
    + intros i _.
      rewrite (length_flat_map_weighted _ (fun j => (Z.eqb (Z.abs i) o) && (Z.eqb (Z.abs j) o)) 1 1).
      * rewrite length_zrange, Z2Nat.id by lia. destruct (Z.eqb (Z.abs i) o); cbn [andb].
        -- rewrite count_abs_edge by lia. lia.
        -- assert (forall l : list Z, filter (fun _ => false) l = []) as ->
             by (induction l; simpl; auto). cbn [List.length Z.of_nat]. lia.
      * intros j _. destruct (_ && _); simpl; lia.
Qed.

Lemma zoom_factor_nonneg (t : Tile) : (0 <= zoom_factor t)%R.
Proof. unfold zoom_factor. apply IZR_le. apply Z.pow_nonneg. lia. Qed.

Lemma zoom_factor_ge_1 (t : Tile) : 0 <= tile_z t -> (1 <= zoom_factor t)%R.
Proof.
  intros Hz. unfold zoom_factor. apply IZR_le.
  assert (0 < 2 ^ tile_z t) by (apply Z.pow_pos_nonneg; lia). lia.
Qed.

Lemma div_unit_range (a b : R) : (0 < b)%R -> (0 <= a <= b)%R -> (0 <= a / b <= 1)%R /\ (a < b -> a / b < 1)%R.
Proof.
  intros Hb Ha. assert (0 < / b)%R by (apply Rinv_0_lt_compat; lra).
  assert (b * / b = 1)%R by (field; lra). unfold Rdiv. split; [split|intros]; nra.
Qed.

Lemma py_fmod_range (a b : R) : (0 < b)%R -> (0 <= py_fmod a b < b)%R.
Proof.
  intros Hb. unfold py_fmod. destruct (base_Int_part (a / b)) as [H1 H2].
  set (f := IZR (Int_part (a / b))) in *.
  assert (a = b * (a / b))%R as Ea by (field; lra).
  assert (b * f <= b * (a / b))%R by (apply Rmult_le_compat_l; lra).
  assert (b * (a / b - 1) < b * f)%R by (apply Rmult_lt_compat_l; lra).
  split; nra.
Qed.

Lemma py_fmod_shift (a b : R) (k : Z) : (0 < b)%R -> (0 <= a < b)%R ->
  py_fmod (a + b * IZR k) b = a.
Proof.
  intros Hb Ha. unfold py_fmod.
  rewrite (Int_part_of _ k).
  - ring.
  - replace ((a + b * IZR k) / b)%R with (a / b + IZR k)%R by (field; lra).
    destruct (div_unit_range a b Hb ltac:(lra)) as [H1 H2]. specialize (H2 ltac:(lra)). lra.
Qed.

Ltac lon_cases :=
  unfold longitude_to_x;
  repeat match goal with
         | |- context [Rlt_dec ?a ?b] => destruct (Rlt_dec a b)
         end.

(** X8: For every longitude, longitude_to_x returns a value between 0 and 2**z. *)
Theorem longitude_to_x_range (t : Tile) (longitude : R) :
  (0 <= longitude_to_x t longitude <= zoom_factor t)%R.
Proof.
  pose proof (zoom_factor_nonneg t) as Hz.
  pose proof (py_fmod_range (longitude + 180) 360) as Hf.
  lon_cases; try (specialize (Hf ltac:(lra))); split; nra.
Qed.

(** X9: For -180 < longitude < 180 and every integer k, longitude_to_x(longitude + 360 k) = longitude_to_x(longitude): out-of-range longitudes are wrapped modulo 360. *)
Theorem longitude_to_x_periodic (t : Tile) (longitude : R) (k : Z) :
  (-180 < longitude < 180)%R ->
  longitude_to_x t (longitude + 360 * IZR k) = longitude_to_x t longitude.
Proof.
  intros Hl.
  destruct (Z.eq_dec k 0) as [->|Hk].
  - rewrite Rmult_0_r, Rplus_0_r. reflexivity.
  - assert (Hfm : (py_fmod (longitude + 360 * IZR k + 180) 360 - 180 = longitude)%R).
    { replace (longitude + 360 * IZR k + 180)%R with ((longitude + 180) + 360 * IZR k)%R by ring.
      rewrite py_fmod_shift by lra. ring. }
    destruct (Z_lt_le_dec k 0) as [Hn|Hp].
    + apply IZR_lt in Hn. assert (IZR k <= -1)%R by (apply IZR_le; apply lt_IZR in Hn; lia).
      lon_cases; try lra; rewrite Hfm; reflexivity.
    + assert (1 <= IZR k)%R by (apply IZR_le; lia).
      lon_cases; try lra; rewrite Hfm; reflexivity.
Qed.

(** X10: longitude_to_x(180) is 2**z (the right edge), while 180 + 360 k for k <> 0 wraps to 0 (the left edge). *)
Theorem longitude_to_x_antimeridian (t : Tile) (k : Z) :
  k <> 0 ->
  longitude_to_x t (180 + 360 * IZR k) = 0%R /\ longitude_to_x t 180 = zoom_factor t.
Proof.
  intros Hk. split.
  - assert (Hfm : (py_fmod (180 + 360 * IZR k + 180) 360 - 180 = -180)%R).
    { replace (180 + 360 * IZR k + 180)%R with (0 + 360 * IZR (k + 1))%R
        by (rewrite plus_IZR; ring).
      rewrite py_fmod_shift by lra. ring. }
    destruct (Z_lt_le_dec k 0) as [Hn|Hp].
    + assert (IZR k <= -1)%R by (apply IZR_le; lia).
      lon_cases; try lra; try (rewrite Hfm; field).
      replace (IZR k) with (-1)%R by lra. field.
    + assert (1 <= IZR k)%R by (apply IZR_le; lia).
      lon_cases; try lra; rewrite Hfm; field.
  - lon_cases; lra.
Qed.

Lemma longitude_to_x_in (t : Tile) (longitude : R) :
  (-180 <= longitude <= 180)%R ->
  longitude_to_x t longitude = ((longitude + 180) / 360 * zoom_factor t)%R.
Proof. intros H. lon_cases; try lra; reflexivity. Qed.

Lemma longitude_to_x_translate_eq (t : Tile) (x_extra y_extra : R) :
  0 <= tile_z t -> (0 <= IZR (tile_x t) + x_extra <= zoom_factor t)%R ->
  longitude_to_x t (snd (translate t x_extra y_extra)) = (IZR (tile_x t) + x_extra)%R.
Proof.
  intros Hz Hx. pose proof (zoom_factor_ge_1 t Hz) as Hz1.
  unfold translate. cbv zeta. simpl snd.
  set (X := (IZR (tile_x t) + x_extra)%R) in *.
  destruct (div_unit_range X (zoom_factor t) ltac:(lra) Hx) as [HX _].
  rewrite longitude_to_x_in by lra. field. lra.
Qed.

(** X11: For z >= 0 and 0 <= x + x_extra <= 2**z, longitude_to_x maps the longitude of translate(x_extra, y_extra) back to x + x_extra. *)
Theorem longitude_to_x_translate (t : Tile) (x_extra y_extra : R) :
  0 <= tile_z t -> (0 <= IZR (tile_x t) + x_extra <= zoom_factor t)%R ->
  longitude_to_x t (snd (translate t x_extra y_extra)) = (IZR (tile_x t) + x_extra)%R.
Proof. intros; apply longitude_to_x_translate_eq; assumption. Qed.

Lemma cosh_pos (s : R) : (0 < cosh s)%R.
Proof. unfold cosh. pose proof (exp_pos s). pose proof (exp_pos (- s)). lra. Qed.

Lemma sinh_plus_cosh (s : R) : (sinh s + sqrt (1 + (sinh s)²) = exp s)%R.
Proof.
  assert (E : (exp s * exp (- s) = 1)%R) by (rewrite <- exp_plus, Rplus_opp_r; apply exp_0).
  assert (Hc : (1 + (sinh s)² = (cosh s)²)%R) by (unfold Rsqr, sinh, cosh; nra).
  rewrite Hc, sqrt_Rsqr by (apply Rlt_le, cosh_pos).
  unfold sinh, cosh. field.
Qed.

Lemma latitude_to_y_translate_eq (t : Tile) (x_extra y_extra : R) :
  0 <= tile_z t ->
  (-850511 / 10000 <= fst (translate t x_extra y_extra) <= 850511 / 10000)%R ->
  latitude_to_y t (fst (translate t x_extra y_extra)) = (IZR (tile_y t) + y_extra)%R.
Proof.
  intros Hz Hlat. pose proof (zoom_factor_ge_1 t Hz) as Hz1. pose proof PI_RGT_0 as Hpi.
  unfold latitude_to_y. rewrite clampR_in by lra.
  unfold translate in *. cbv zeta. simpl fst.
  set (s := (PI * (1 - 2 * (IZR (tile_y t) + y_extra) / zoom_factor t))%R).
  replace (radians (degrees (atan (sinh s)))) with (atan (sinh s))
    by (unfold radians, degrees; field; lra).
  rewrite tan_atan, cos_atan.
  assert (0 < sqrt (1 + (sinh s)²))%R by (apply sqrt_lt_R0; pose proof (Rle_0_sqr (sinh s)); lra).
  replace (1 / (1 / sqrt (1 + (sinh s)²)))%R with (sqrt (1 + (sinh s)²)) by (field; lra).
  rewrite sinh_plus_cosh, ln_exp. unfold s. field. lra.
Qed.

(** X12: For z >= 0, when the latitude of translate(x_extra, y_extra) lies inside the +-85.0511 clamp, latitude_to_y maps it back to y + y_extra. *)
Theorem latitude_to_y_translate (t : Tile) (x_extra y_extra : R) :
  0 <= tile_z t ->
  (-850511 / 10000 <= fst (translate t x_extra y_extra) <= 850511 / 10000)%R ->
  latitude_to_y t (fst (translate t x_extra y_extra)) = (IZR (tile_y t) + y_extra)%R.
Proof. intros; apply latitude_to_y_translate_eq; assumption. Qed.

(** X13: For z >= 0, 0 <= x < 2**z and 0 <= x + x_extra <= 2**z, longitude_to_tile_x of the longitude of translate(x_extra, y_extra) is x_extra * width * resize_factor: the tile's left edge is pixel 0. *)
Theorem longitude_to_tile_x_translate (t : Tile) (x_extra y_extra resize_factor : R) :
  0 <= tile_z t -> 0 <= tile_x t < 2 ^ tile_z t ->
  (0 <= IZR (tile_x t) + x_extra <= zoom_factor t)%R ->
  longitude_to_tile_x t (snd (translate t x_extra y_extra)) resize_factor =
  (x_extra * (IZR (width t) * resize_factor))%R.
Proof.
  intros Hz Hx Hxe. unfold longitude_to_tile_x, middle.
  assert (Hx' : (0 <= IZR (tile_x t) /\ IZR (tile_x t) + 1 <= zoom_factor t)%R).
  { unfold zoom_factor. split; [apply IZR_le; lia|]. rewrite <- plus_IZR. apply IZR_le. lia. }
  rewrite !longitude_to_x_translate_eq by (auto; lra). field.
Qed.

(** X14: For z >= 0, when the latitudes of translate(x_extra, y_extra) and of the tile middle lie inside the clamp, latitude_to_tile_y of that latitude is y_extra * width * resize_factor. *)
Theorem latitude_to_tile_y_translate (t : Tile) (x_extra y_extra resize_factor : R) :
  0 <= tile_z t ->
  (-850511 / 10000 <= fst (translate t x_extra y_extra) <= 850511 / 10000)%R ->
  (-850511 / 10000 <= fst (middle t) <= 850511 / 10000)%R ->
  latitude_to_tile_y t (fst (translate t x_extra y_extra)) resize_factor =
  (y_extra * (IZR (width t) * resize_factor))%R.
Proof.
  intros Hz H1 H2. unfold latitude_to_tile_y. unfold middle in *.
  rewrite !latitude_to_y_translate_eq by assumption. field.
Qed.

Ltac clamp_cases :=
  unfold clampR;
  repeat match goal with
         | |- context [Rmin ?a ?b] =>
             destruct (Rle_dec a b);
             [rewrite (Rmin_left a b) by assumption | rewrite (Rmin_right a b) by lra]
         | |- context [Rmax ?a ?b] =>
             destruct (Rle_dec a b);
             [rewrite (Rmax_right a b) by assumption | rewrite (Rmax_left a b) by lra]
         end; lra.

Lemma clampR_neg (v : R) :
  clampR (- v) (-850511 / 10000) (850511 / 10000) = (- clampR v (-850511 / 10000) (850511 / 10000))%R.
Proof.
  clamp_cases.
Qed.

Lemma clampR_bounds (v : R) :
  (-850511 / 10000 <= clampR v (-850511 / 10000) (850511 / 10000) <= 850511 / 10000)%R.
Proof.
  clamp_cases.
Qed.

Lemma radians_bounds (c : R) : (-850511 / 10000 <= c <= 850511 / 10000)%R ->
  (- (PI / 2) < radians c < PI / 2)%R.
Proof.
  unfold radians. intros H. pose proof PI_RGT_0.
  split; nra.
Qed.

Lemma mercator_sum_pos (r : R) : (- (PI / 2) < r < PI / 2)%R ->
  (0 < cos r)%R /\ (0 < tan r + 1 / cos r)%R /\ (0 < - tan r + 1 / cos r)%R /\
  ((tan r + 1 / cos r) * (- tan r + 1 / cos r) = 1)%R.
Proof.
  intros Hr. assert (Hc : (0 < cos r)%R) by (apply cos_gt_0; lra).
  pose proof (sin2_cos2 r) as E. unfold Rsqr in E.
  assert (Hs : (- 1 < sin r < 1)%R) by nra.
  unfold tan. split; [exact Hc|].
  replace (sin r / cos r + 1 / cos r)%R with ((sin r + 1) / cos r)%R by (field; lra).
  replace (- (sin r / cos r) + 1 / cos r)%R with ((1 - sin r) / cos r)%R by (field; lra).
  assert (0 < / cos r)%R by (apply Rinv_0_lt_compat; lra).
  unfold Rdiv. split; [nra|]. split; [nra|].
  field_simplify; [|lra]. replace (cos r ^ 2)%R with (1 - sin r ^ 2)%R by nra. field.
  intro H0. assert (cos r ^ 2 = 0)%R by nra. nra.
Qed.

(** X15: latitude_to_y(-latitude) = 2**z - latitude_to_y(latitude), and the equator maps to 2**z / 2. *)
Theorem latitude_to_y_symmetric (t : Tile) (latitude : R) :
  latitude_to_y t (- latitude) = (zoom_factor t - latitude_to_y t latitude)%R /\
  latitude_to_y t 0 = (zoom_factor t / 2)%R.
Proof.
  assert (Hsym : forall v, latitude_to_y t (- v) = (zoom_factor t - latitude_to_y t v)%R).
  { intros v. unfold latitude_to_y. rewrite clampR_neg.
    set (c := clampR v (-850511 / 10000) (850511 / 10000)).
    pose proof (radians_bounds c (clampR_bounds v)) as Hr.
    replace (radians (- c)) with (- radians c)%R by (unfold radians; field).
    rewrite tan_neg, cos_neg.
    destruct (mercator_sum_pos (radians c) Hr) as (_ & Ha & Hb & Hab).
    assert (Hl : (ln (- tan (radians c) + 1 / cos (radians c)) =
                  - ln (tan (radians c) + 1 / cos (radians c)))%R).
    { apply Rplus_eq_reg_l with (ln (tan (radians c) + 1 / cos (radians c))).
      rewrite <- ln_mult by assumption. rewrite Hab, ln_1. ring. }
    rewrite Hl. field. apply PI_neq0. }
  split; [apply Hsym|].
  pose proof (Hsym 0%R) as H0. rewrite Ropp_0 in H0. lra.
Qed.

Lemma mercator_half_angle (r : R) : (- (PI / 2) < r < PI / 2)%R ->
  (tan r + 1 / cos r = tan (r / 2 + PI / 4))%R.
Proof.
  intros Hr. set (u := (r / 2 + PI / 4)%R).
  assert (Hu : (0 < u < PI / 2)%R) by (unfold u; lra).
  assert (Er : r = (- (PI / 2 - 2 * u))%R) by (unfold u; field).
  assert (Hsu : (0 < sin u)%R) by (apply sin_gt_0; lra).
  assert (Hcu : (0 < cos u)%R) by (apply cos_gt_0; lra).
  assert (Hcr : (0 < cos r)%R) by (apply cos_gt_0; lra).
  rewrite Er in Hcr |- *. unfold tan.
  rewrite sin_neg, cos_neg, sin_shift, cos_shift in *.
  rewrite sin_2a in *. rewrite cos_2a_sin.
  field. split; lra.
Qed.

Lemma mercator_monotone (r1 r2 : R) :
  (- (PI / 2) < r1 <= r2)%R -> (r2 < PI / 2)%R ->
  (tan r1 + 1 / cos r1 <= tan r2 + 1 / cos r2)%R.
Proof.
  intros H1 H2. rewrite !mercator_half_angle by lra.
  destruct (Req_dec r1 r2) as [->|Hne]; [lra|].
  apply Rlt_le, tan_increasing; lra.
Qed.

Lemma clampR_mono (a b : R) : (a <= b)%R ->
  (clampR a (-850511 / 10000) (850511 / 10000) <= clampR b (-850511 / 10000) (850511 / 10000))%R.
Proof. intros H. clamp_cases. Qed.

(** X16: latitude_to_y is non-increasing in the latitude, and constant at or beyond +-85.0511. *)
Theorem latitude_to_y_monotone (t : Tile) (lat1 lat2 : R) :
  (lat1 <= lat2)%R ->
  (latitude_to_y t lat2 <= latitude_to_y t lat1)%R /\
  ((850511 / 10000 <= lat1)%R -> latitude_to_y t lat2 = latitude_to_y t lat1) /\
  ((lat2 <= -850511 / 10000)%R -> latitude_to_y t lat2 = latitude_to_y t lat1).
Proof.
  intros H. pose proof (zoom_factor_nonneg t) as Hz. pose proof PI_RGT_0 as Hpi.
  split; [|split].
  - unfold latitude_to_y.
    pose proof (clampR_mono lat1 lat2 H) as Hc.
    set (c1 := clampR lat1 _ _) in *. set (c2 := clampR lat2 _ _) in *.
    pose proof (radians_bounds c1 (clampR_bounds lat1)) as Hr1.
    pose proof (radians_bounds c2 (clampR_bounds lat2)) as Hr2.
    destruct (mercator_sum_pos _ Hr1) as (_ & Ha1 & _).
    assert (Hr : (radians c1 <= radians c2)%R) by (unfold radians; nra).
    pose proof (mercator_monotone (radians c1) (radians c2) ltac:(lra) ltac:(lra)) as Hm.
    assert (Hl : (ln (tan (radians c1) + 1 / cos (radians c1)) <=
                  ln (tan (radians c2) + 1 / cos (radians c2)))%R).
    { destruct (Rle_lt_or_eq_dec _ _ Hm) as [Hlt|Heq];
        [apply Rlt_le, ln_increasing; lra | rewrite Heq; lra]. }
    assert (ln (tan (radians c1) + 1 / cos (radians c1)) / PI <=
            ln (tan (radians c2) + 1 / cos (radians c2)) / PI)%R.
    { unfold Rdiv. apply Rmult_le_compat_r; [apply Rlt_le, Rinv_0_lt_compat; lra | exact Hl]. }
    apply Rmult_le_compat_r; [exact Hz|]. lra.
  - intros H1. unfold latitude_to_y.
    replace (clampR lat2 _ _) with (850511 / 10000)%R by (symmetry; clamp_cases).
    replace (clampR lat1 _ _) with (850511 / 10000)%R by (symmetry; clamp_cases).
    reflexivity.
  - intros H2. unfold latitude_to_y.
    replace (clampR lat2 _ _) with (-850511 / 10000)%R by (symmetry; clamp_cases).
    replace (clampR lat1 _ _) with (-850511 / 10000)%R by (symmetry; clamp_cases).
    reflexivity.
Qed.

Lemma zsum_app (l1 l2 : list Z) : zsum (app l1 l2) = zsum l1 + zsum l2.
Proof. induction l1 as [|a l1 IH]; simpl; [reflexivity|]. unfold zsum in *. simpl. lia. Qed.

Lemma zsum_update_row (tot : Z) (first : pyval) (j : nat) (row : list (Z * pyval)) :
  (j < List.length row)%nat ->
  zsum (map fst (update_nth j (fun '(c, f) => (c + tot, if is_none f then first else f)) row)) =
  zsum (map fst row) + tot.
Proof.
  revert j; induction row as [|[c f] row IH]; intros [|j] Hj; simpl in *; try lia.
  unfold zsum in *. rewrite IH by lia. lia.
Qed.

Lemma cell_total_update (tot : Z) (first : pyval) (i j : nat) (g : list (list (Z * pyval))) :
  (i < List.length g)%nat -> (j < List.length (nth i g []))%nat ->
  cell_total (update_nth i (update_nth j
     (fun '(c, f) => (c + tot, if is_none f then first else f))) g) = cell_total g + tot.
Proof.
  unfold cell_total. revert i; induction g as [|row g IH]; intros [|i] Hi Hj; simpl in *; try lia.
  - rewrite !map_app, !zsum_app, zsum_update_row by exact Hj. lia.
  - rewrite !map_app, !zsum_app, IH by lia. lia.
Qed.

Lemma group_point_total (t : Tile) (grid_size : Z) (cell_ratio : R)
    (g g' : list (list (Z * pyval))) (p : point) :
  square grid_size g -> group_point t grid_size cell_ratio g p = Ok g' ->
  square grid_size g' /\ cell_total g' = cell_total g + point_weight t grid_size cell_ratio p.
Proof.
  intros [Hl Hr] H. destruct p as [b|la lo tot first]; [discriminate|].
  unfold group_point, point_weight in *.
  destruct (translate_to_tile t la lo cell_ratio) as [x y].
  destruct (out_of_grid x y grid_size) eqn:E.
  - inversion H; subst. split; [split; assumption | lia].
  - inversion H; subst; clear H.
    destruct (out_of_grid_false_inv _ _ _ E) as [Hx Hy].
    pose proof (py_int_range _ _ Hx). pose proof (py_int_range _ _ Hy).
    split; [split|].
    + rewrite length_update_nth. exact Hl.
    + apply Forall_update_nth; [|exact Hr]. intros a Ha. rewrite length_update_nth. exact Ha.
    + apply cell_total_update; [lia|].
      rewrite Forall_forall in Hr. rewrite Hr; [lia|]. apply nth_In. lia.
Qed.

Lemma fold_group_total (t : Tile) (grid_size : Z) (cell_ratio : R) (points : list point)
    (acc g : list (list (Z * pyval))) :
  square grid_size acc ->
  fold_result (group_point t grid_size cell_ratio) acc points = Ok g ->
  square grid_size g /\
  cell_total g = cell_total acc + zsum (map (point_weight t grid_size cell_ratio) points).
Proof.
  revert acc; induction points as [|p points IH]; intros acc Hacc H; simpl in H.
  - inversion H; subst. split; [exact Hacc|]. unfold zsum; simpl. lia.
  - destruct (group_point t grid_size cell_ratio acc p) as [a|e] eqn:E; simpl in H; [|discriminate].
    destruct (group_point_total _ _ _ _ _ _ Hacc E) as [Ha Ht].
    destruct (IH a Ha H) as [Hg Hs]. split; [exact Hg|].
    rewrite Hs, Ht. unfold zsum; simpl. fold (zsum (map (point_weight t grid_size cell_ratio) points)). lia.
Qed.

Lemma cell_total_blank (n : nat) : cell_total (repeat (repeat (0, VNone) n) n) = 0.
Proof.
  unfold cell_total. generalize n at 2. intros m. induction m as [|m IH]; simpl; [reflexivity|].
  rewrite map_app, zsum_app, IH. clear IH. induction n as [|n IH]; simpl; [reflexivity|].
  unfold zsum in *; simpl. lia.
Qed.

(** X17: When group_points succeeds it returns a grid_size x grid_size grid (grid_size = width // grid_resolution) whose cell totals add up to the totals of exactly the points that land inside the grid; points outside it are dropped. *)
Theorem group_points_conserves_totals (t : Tile) (points : list point)
    (grid_resolution : Z) (g : list (list (Z * pyval))) :
  group_points t points grid_resolution = Ok g ->
  let grid_size := width t / grid_resolution in
  List.length g = Z.to_nat grid_size /\
  Forall (fun row => List.length row = Z.to_nat grid_size) g /\
  cell_total g =
    zsum (map (point_weight t grid_size (IZR grid_size / IZR (width t))) points).
Proof.
  unfold group_points, floordiv. intros H.
  destruct (Z.eqb_spec grid_resolution 0) as [E|E]; [discriminate|]. simpl in H. cbv zeta.
  assert (Hb : square (width t / grid_resolution)
                 (repeat (repeat (0, VNone) (Z.to_nat (width t / grid_resolution)))
                    (Z.to_nat (width t / grid_resolution)))).
  { split; [apply repeat_length|]. apply Forall_forall. intros row Hrow.
    apply repeat_spec in Hrow. subst. apply repeat_length. }
  destruct (fold_group_total _ _ _ _ _ _ Hb H) as [[Hl Hr] Ht].
  rewrite cell_total_blank in Ht. auto.
Qed.

Lemma sorted_nth_tail (h : Z) (t : list Z) : sorted_nth (h :: t) -> sorted_nth t.
Proof. intros H i j Hij. apply (H (S i) (S j)). simpl. lia. Qed.

Lemma count_lt_le (a : list Z) (x : Z) : (count_lt a x <= List.length a)%nat.
Proof. unfold count_lt. induction a as [|h t IH]; simpl; [lia|]. destruct (Z.ltb h x); simpl; lia. Qed.

Lemma count_lt_mono (a : list Z) (x1 x2 : Z) : x1 <= x2 -> (count_lt a x1 <= count_lt a x2)%nat.
Proof.
  unfold count_lt. intros Hx. induction a as [|h t IH]; simpl; [lia|].
  destruct (Z.ltb_spec h x1), (Z.ltb_spec h x2); simpl; lia.
Qed.

Lemma count_lt_prefix (a : list Z) (x : Z) : sorted_nth a ->
  (forall i, (i < count_lt a x)%nat -> nth i a 0 < x) /\
  (forall i, (count_lt a x <= i < List.length a)%nat -> x <= nth i a 0).
Proof.
  unfold count_lt. induction a as [|h t IH]; intros Hs; simpl; [split; intros; lia|].
  destruct (IH (sorted_nth_tail h t Hs)) as [IH1 IH2].
  destruct (Z.ltb_spec h x) as [Hh|Hh]; simpl.
  - split.
    + intros [|i] Hi; [exact Hh|]. apply IH1. lia.
    + intros [|i] Hi; [lia|]. apply IH2. lia.
  - assert (Hf : filter (fun v => Z.ltb v x) t = []).
    { clear IH1 IH2 IH.
      assert (Hall : forall k, (k < List.length t)%nat -> x <= nth k t 0).
      { intros k Hk. specialize (Hs 0%nat (S k) ltac:(simpl; lia)). simpl in Hs. lia. }
      clear Hs. induction t as [|v t IHt]; simpl; [reflexivity|].
      destruct (Z.ltb_spec v x) as [Hv|Hv].
      - specialize (Hall 0%nat ltac:(simpl; lia)). simpl in Hall. lia.
      - apply IHt. intros k Hk. apply (Hall (S k)). simpl. lia. }
    rewrite Hf. simpl. split; [intros; lia|].
    intros i Hi. specialize (Hs 0%nat i ltac:(simpl in *; lia)). simpl in Hs. lia.
Qed.

Lemma bisect_left_count (a : list Z) (x : Z) : sorted_nth a -> bisect_left a x = count_lt a x.
Proof.
  intros Hs. destruct (count_lt_prefix a x Hs) as [H1 H2].
  apply bisect_left_spec; [apply count_lt_le | exact H1 | exact H2].
Qed.

Lemma Int_part_mono (r1 r2 : R) : (r1 <= r2)%R -> Int_part r1 <= Int_part r2.
Proof. intros H. apply Int_part_ge. pose proof (Int_part_le r1). lra. Qed.

Lemma threshold_values_sorted (range_size : Z) : sorted_nth (threshold_values range_size).
Proof.
  intros i j Hij. rewrite length_threshold_values in Hij.
  rewrite !nth_threshold_values by lia. apply Int_part_mono, exp_INR_le. lia.
Qed.

Lemma assign_colour_index (count : Z) (cold_colour hot_colour : colour) (range_size : Z) :
  range_size <= 710 -> count <> 0 ->
  assign_colour count cold_colour hot_colour range_size =
    (c <- py_index (range_to cold_colour hot_colour (range_size + 1))
            (Z.of_nat (count_lt (threshold_values range_size) count)) ;; Ok (Some c)).
Proof.
  intros Hr Hc. rewrite assign_colour_bisect by assumption.
  rewrite bisect_left_count by apply threshold_values_sorted. reflexivity.
Qed.

Lemma assign_colour_cases (count : Z) (cold_colour hot_colour : colour) (range_size : Z) :
  (count = 0 -> assign_colour count cold_colour hot_colour range_size = Ok None) /\
  (count <> 0 -> 0 <= range_size <= 710 ->
   exists c, assign_colour count cold_colour hot_colour range_size = Ok (Some c) /\
             In c (range_to cold_colour hot_colour (range_size + 1))) /\
  (count <> 0 -> 711 <= range_size ->
   assign_colour count cold_colour hot_colour range_size =
     Error (OverflowError "math range error")).
Proof.
  split; [|split].
  - intros ->. reflexivity.
  - intros Hc Hr. rewrite assign_colour_index by (assumption || lia).
    pose proof (count_lt_le (threshold_values range_size) count) as Hle.
    rewrite length_threshold_values in Hle.
    destruct (py_index_in_range (range_to cold_colour hot_colour (range_size + 1))
                (Z.of_nat (count_lt (threshold_values range_size) count))) as (c & Hc1 & Hc2).
    { rewrite length_range_to. lia. }
    exists c. rewrite Hc1. split; [reflexivity | exact Hc2].
  - intros Hc Hr. apply assign_colour_overflow; assumption.
Qed.

(** X18: assign_colour returns None for a count of 0; for a nonzero count it returns a colour of the range_size + 1 colour ramp when 0 <= range_size <= 710, and raises OverflowError('math range error') when range_size >= 711, as math.exp(710) overflows while the thresholds are built. *)
Theorem assign_colour_total (count : Z) (cold_colour hot_colour : colour) (range_size : Z) :
  (count = 0 -> assign_colour count cold_colour hot_colour range_size = Ok None) /\
  (count <> 0 -> 0 <= range_size <= 710 ->
   exists c, assign_colour count cold_colour hot_colour range_size = Ok (Some c) /\
             In c (range_to cold_colour hot_colour (range_size + 1))) /\
  (count <> 0 -> 711 <= range_size ->
   assign_colour count cold_colour hot_colour range_size =
     Error (OverflowError "math range error")).
Proof. apply assign_colour_cases. Qed.

(** X19: For 0 <= range_size <= 710 and nonzero counts c1 <= c2, assign_colour picks ramp indices i1 <= i2 <= range_size: a larger count never gets a colder colour. *)
Theorem assign_colour_monotone (count1 count2 : Z) (cold_colour hot_colour : colour)
    (range_size : Z) :
  0 <= range_size <= 710 -> count1 <> 0 -> count2 <> 0 -> count1 <= count2 ->
  exists i1 i2 : Z, 0 <= i1 <= i2 /\ i2 <= range_size /\
    assign_colour count1 cold_colour hot_colour range_size =
      (c <- py_index (range_to cold_colour hot_colour (range_size + 1)) i1 ;; Ok (Some c)) /\
    assign_colour count2 cold_colour hot_colour range_size =
      (c <- py_index (range_to cold_colour hot_colour (range_size + 1)) i2 ;; Ok (Some c)).
Proof.
  intros Hr H1 H2 H12.
  exists (Z.of_nat (count_lt (threshold_values range_size) count1)),
         (Z.of_nat (count_lt (threshold_values range_size) count2)).
  pose proof (count_lt_mono (threshold_values range_size) _ _ H12).
  pose proof (count_lt_le (threshold_values range_size) count2).
  rewrite length_threshold_values in *.
  split; [lia|]. split; [lia|].
  split; apply assign_colour_index; (assumption || lia).
Qed.

Lemma draw_point_ok (point_radius resize_factor : Z) :
  1 <= point_radius -> 1 <= resize_factor ->
  draw_point point_radius resize_factor =
    Ok (point_radius * 2 * resize_factor, point_radius * 2 * resize_factor).
Proof.
  intros Hp Hr. assert (1 <= point_radius * resize_factor) by nia.
  unfold draw_point, image_new.
  replace (Z.ltb (point_radius * 2 * resize_factor) 0) with false
    by (symmetry; apply Z.ltb_ge; lia).
  simpl bind.
  replace (Z.ltb (point_radius * 2 * resize_factor - 1) 0) with false
    by (symmetry; apply Z.ltb_ge; lia).
  reflexivity.
Qed.

Lemma gridded_cells_pasted (grid_resolution : Z) (cold_colour hot_colour : colour)
    (range_size resize_factor : Z) (cells : list (Z * Z * Z * pyval)) :
  0 <= range_size <= 710 -> 1 <= resize_factor -> 2 <= grid_resolution ->
  exists os,
    map_result (fun '(x, y, count, _) =>
          c <- assign_colour count cold_colour hot_colour range_size ;;
          match c with
          | None => Ok None
          | Some colour =>
              point_image <- draw_point (grid_resolution / 2) resize_factor ;;
              Ok (Some (mkGriddedPaste (grid_resolution / 2) colour resize_factor
                          (x * grid_resolution * resize_factor,
                           y * grid_resolution * resize_factor)))
          end) cells = Ok os /\
    map gp_position (unopt os) =
      map (fun '(x, y, _, _) => (x * grid_resolution * resize_factor,
                                 y * grid_resolution * resize_factor))
        (filter (fun '(_, _, count, _) => negb (Z.eqb count 0)) cells) /\
    Forall (fun p => gp_radius p = grid_resolution / 2 /\ gp_resize_factor p = resize_factor /\
                     In (gp_colour p) (range_to cold_colour hot_colour (range_size + 1)))
      (unopt os).
Proof.
  intros Hr Hf Hg.
  assert (Hd : 1 <= grid_resolution / 2) by (apply Z.div_le_lower_bound; lia).
  induction cells as [|[[[x y] count] f] cells IH].
  - exists []. simpl. auto.
  - destruct IH as (os & Hm & Hp & Hall). simpl. rewrite Hm.
    destruct (Z.eqb_spec count 0) as [E|E].
    + subst count. exists (None :: os). simpl. auto.
    + destruct (proj1 (proj2 (assign_colour_cases count cold_colour hot_colour range_size)) E Hr)
        as (c & Hc & Hin).
      rewrite Hc. simpl bind. rewrite draw_point_ok by assumption. simpl.
      eexists. split; [reflexivity|]. simpl. split.
      * f_equal. exact Hp.
      * constructor; [simpl; auto | exact Hall].
Qed.

(** X20: When group_points succeeds, 0 <= range_size <= 710, resize_factor >= 1, grid_resolution >= 2 and the tile width is >= 0, GriddedTile.render creates its canvas and pastes exactly one point per non-empty cell, in row order, at (x * grid_resolution * resize_factor, y * grid_resolution * resize_factor), with radius grid_resolution // 2, the given resize_factor and a colour of the ramp. *)
Theorem gridded_render_one_point_per_cell (t : Tile) (points : list point)
    (grid_resolution : Z) (cold_colour hot_colour : colour) (range_size resize_factor : Z)
    (g : list (list (Z * pyval))) :
  0 <= range_size <= 710 -> 1 <= resize_factor -> 2 <= grid_resolution -> 0 <= width t ->
  group_points t points grid_resolution = Ok g ->
  exists pastes,
    gridded_render t points grid_resolution cold_colour hot_colour range_size resize_factor =
      Ok pastes /\
    map gp_position pastes =
      map (fun '(x, y, _, _) => (x * grid_resolution * resize_factor,
                                 y * grid_resolution * resize_factor))
        (filter (fun '(_, _, count, _) => negb (Z.eqb count 0)) (grid_cells g)) /\
    Forall (fun p => gp_radius p = grid_resolution / 2 /\ gp_resize_factor p = resize_factor /\
                     In (gp_colour p) (range_to cold_colour hot_colour (range_size + 1))) pastes.
Proof.
  intros Hr Hf Hgr Hw Hg. unfold gridded_render, image_new.
  replace (Z.ltb (width t * resize_factor) 0) with false by (symmetry; apply Z.ltb_ge; nia).
  simpl orb. cbv iota. simpl bind. rewrite Hg. simpl bind.
  destruct (gridded_cells_pasted grid_resolution cold_colour hot_colour range_size resize_factor
              (grid_cells g) Hr Hf Hgr) as (os & Hm & Hp & Hall).
  rewrite Hm. simpl. exists (unopt os). split; [reflexivity|]. split; assumption.
Qed.

(** X21: The heatmap weight clamp(int(math.log(total)), 1, 10) raises ValueError('math domain error') for total <= 0; for total > 0 it lies in 1..10, is 1 when total < e^2 and 10 when total >= e^10. *)
Theorem heatmap_weight_bounds (tot : Z) :
  (tot <= 0 -> heatmap_weight tot = Error (ValueError "math domain error")) /\
  (0 < tot -> exists w, heatmap_weight tot = Ok w /\ 1 <= w <= 10 /\
     ((IZR tot < exp 2)%R -> w = 1) /\ ((exp 10 <= IZR tot)%R -> w = 10)).
Proof.
  unfold heatmap_weight. split.
  - intros H. replace (Z.leb tot 0) with true by (symmetry; apply Z.leb_le; exact H).
    reflexivity.
  - intros H. replace (Z.leb tot 0) with false by (symmetry; apply Z.leb_gt; exact H).
    eexists. split; [reflexivity|].
    assert (Ht : (1 <= IZR tot)%R) by (apply IZR_le; lia).
    assert (Hl : (0 <= ln (IZR tot))%R).
    { rewrite <- ln_1. destruct Ht as [Ht|Ht]; [left; apply ln_increasing; lra | rewrite Ht; lra]. }
    assert (Hp : py_int (ln (IZR tot)) = Int_part (ln (IZR tot))).
    { unfold py_int. destruct (Rle_dec 0 _); [reflexivity | lra]. }
    rewrite Hp. assert (H0 : 0 <= Int_part (ln (IZR tot))) by (apply Int_part_ge; lra).
    split; [unfold clamp; lia|]. split.
    + intros Hlt. assert (ln (IZR tot) < 2)%R.
      { rewrite <- (ln_exp 2). apply ln_increasing; lra. }
      assert (Int_part (ln (IZR tot)) <= 1).
      { pose proof (Int_part_le (ln (IZR tot))). assert (IZR (Int_part (ln (IZR tot))) < IZR 2)%R by lra.
        apply lt_IZR in H3. lia. }
      unfold clamp. lia.
    + intros Hge. assert (10 <= ln (IZR tot))%R.
      { rewrite <- (ln_exp 10). pose proof (exp_pos 10).
        destruct Hge as [Hg|Hg]; [left; apply ln_increasing; lra | rewrite Hg; lra]. }
      assert (10 <= Int_part (ln (IZR tot))) by (apply Int_part_ge; lra). unfold clamp. lia.
Qed.

Lemma zrange_snoc (a b : Z) : a <= b -> zrange a (b + 1) = app (zrange a b) [b].
Proof.
  intros H. unfold zrange. replace (Z.to_nat (b + 1 - a)) with (S (Z.to_nat (b - a))) by lia.
  rewrite seq_S, map_app. simpl. do 2 f_equal. lia.
Qed.

Lemma process_mark_ids (grid_size point_width : Z) (st st' : utfgrid * Z) (m : mark) :
  ids_invariant st -> process_mark grid_size point_width st m = Ok st' -> ids_invariant st'.
Proof.
  destruct st as [u n]. intros (Hn & Hk & Hd) H. unfold process_mark in H.
  destruct m as [lat lon x y tot first|]; [|discriminate].
  destruct (cells_to_mark grid_size (py_round x) (py_round y) point_width); [now inversion H; subst; simpl; auto|].
  destruct (if Z.eqb tot 1 then record_geo first else Ok (lat, lon)) as [rep|e]; simpl in H; [|discriminate].
  destruct (getitem first "data") as [d|e]; simpl in H; [|discriminate].
  inversion H; subst. simpl. rewrite zrange_snoc by lia. split; [lia|]. split.
  - rewrite Hk, map_app. reflexivity.
  - rewrite map_app, Hd, map_app. reflexivity.
Qed.

Lemma as_grid_ids (s : style) (t : Tile) (points : list point)
    (grid_resolution point_width : Z) (u : utfgrid) :
  as_grid s t points grid_resolution point_width = Ok u ->
  exists n, 0 <= n /\
    keys u = "" :: map str_of_Z (zrange 1 (n + 1)) /\
    map fst (data u) = map str_of_Z (zrange 1 (n + 1)).
Proof.
  unfold as_grid. intros H.
  destruct (floordiv (width t) grid_resolution) as [gs|e]; simpl in H; [|discriminate].
  destruct (negb (is_power_of_two gs)).
  - destruct (new_GridNotPowerOfTwoException [gs]); discriminate.
  - destruct (get_marks s t points grid_resolution) as [marks stop].
    destruct (fold_result (process_mark gs point_width) (blank_grid gs, 1) marks) as [st|e] eqn:E;
      simpl in H; [|discriminate].
    destruct stop; [discriminate|]. inversion H; subst.
    assert (Hi : ids_invariant st).
    { eapply fold_result_inv; [intros a b a' Ha Hb; eapply process_mark_ids; eauto | | exact E].
      simpl. split; [lia | split; reflexivity]. }
    destruct st as [u' n]. destruct Hi as (Hn & Hk & Hd). exists (n - 1). simpl.
    replace (n - 1 + 1) with n by lia. auto with zarith.
Qed.

Lemma gen_from_skip_all {A B} (f : A -> option (result B)) (l : list A) :
  (forall a, In a l -> f a = None) -> gen_from f l = ([], None).
Proof.
  induction l as [|a l IH]; intros H; simpl; [reflexivity|].
  rewrite (H a (or_introl eq_refl)). apply IH. intros b Hb. apply H. now right.
Qed.

(** X23: With no points, a nonzero grid_resolution and a power-of-two grid_size, as_grid returns the all-space grid with keys [''] and empty data, in both styles. *)
Theorem as_grid_no_points (s : style) (t : Tile) (grid_resolution point_width : Z) :
  grid_resolution <> 0 ->
  is_power_of_two (width t / grid_resolution) = true ->
  as_grid s t [] grid_resolution point_width = Ok (blank_grid (width t / grid_resolution)).
Proof.
  intros Hr Hp. unfold as_grid, floordiv.
  replace (Z.eqb grid_resolution 0) with false by (symmetry; apply Z.eqb_neq; exact Hr).
  simpl bind. rewrite Hp. simpl negb. cbv iota.
  assert (Hm : get_marks s t [] grid_resolution = ([], None)).
  { destruct s; simpl; unfold plot_get_marks, gridded_get_marks, group_points, floordiv;
      replace (Z.eqb grid_resolution 0) with false by (symmetry; apply Z.eqb_neq; exact Hr);
      simpl; [reflexivity|].
    apply gen_from_skip_all. intros [[[x y] c] f] Hin.
    apply in_grid_cells in Hin as (row & Hrow & Hc).
    apply repeat_spec in Hrow. subst row. apply repeat_spec in Hc. inversion Hc; subst.
    reflexivity. }
  rewrite Hm. reflexivity.
Qed.

Lemma assoc_lookup_u_kept (kvs : list (string * pyval)) :
  forallb (fun kv => kept_key (fst kv)) kvs = true -> assoc_lookup "_u" kvs = None.
Proof.
  induction kvs as [|[k x] kvs IH]; cbn [assoc_lookup forallb fst]; [reflexivity|].
  intros H. apply andb_true_iff in H as [Hk H].
  destruct (String.eqb_spec "_u" k) as [E|E]; [subst k; discriminate | now apply IH].
Qed.

Lemma rebuild_clean_id (v : pyval) :
  clean v = true -> rebuild_dict_or_list v = v.
Proof.
  induction v using pyval_deep_ind; simpl; intros Hc; try reflexivity.
  - f_equal. induction H as [|a l Ha Hl IH]; simpl in *; [reflexivity|].
    apply andb_true_iff in Hc as [H1 H2]. rewrite Ha, IH; auto.
  - rewrite assoc_lookup_u_kept.
    + f_equal. induction H as [|[k a] l Ha Hl IH]; simpl in *; [reflexivity|].
      apply andb_true_iff in Hc as [H1 H2]. apply andb_true_iff in H1 as [Hk Ha'].
      unfold kept_key in Hk. rewrite Hk, Ha, IH; auto.
    + clear H. induction kvs as [|[k a] l IH]; simpl in *; [reflexivity|].
      apply andb_true_iff in Hc as [H1 H2]. apply andb_true_iff in H1 as [Hk _].
      rewrite Hk. now apply IH.
Qed.

(** X24: rebuild_dict_or_list returns unchanged every value in which no dict, at any depth, has a key starting with '_' other than '_id'. *)
Theorem rebuild_dict_or_list_clean (v : pyval) :
  clean v = true -> rebuild_dict_or_list v = v.
Proof. intros; apply rebuild_clean_id; assumption. Qed.

(** X25: For a dict without '_u', rebuild_dict_or_list returns a dict whose keys are the input's keys in order, minus those starting with '_' other than '_id'. *)
Theorem rebuild_dict_or_list_structural_keys (kvs : list (string * pyval)) :
  assoc_lookup "_u" kvs = None ->
  exists kvs', rebuild_dict_or_list (VDict kvs) = VDict kvs' /\
    map fst kvs' = filter kept_key (map fst kvs) /\
    forallb (fun kv => kept_key (fst kv)) kvs' = true.
Proof.
  intros H. simpl. rewrite H. eexists. split; [reflexivity|].
  clear H. induction kvs as [|[k x] kvs IH]; simpl; [auto|].
  unfold kept_key in *. destruct (negb (starts_with_underscore k) || String.eqb k "_id") eqn:E;
    simpl; [rewrite E|]; destruct IH as [IH1 IH2]; [split; [f_equal; exact IH1 | exact IH2] | auto].
Qed.

(** X26: rebuild_data keeps every root key of a dict in order, underscore keys included, returns the dict unchanged when every value is clean, and raises AttributeError on a non-dict. *)
Theorem rebuild_data_root (parsed_data : pyval) :
  (forall kvs, parsed_data = VDict kvs ->
     exists kvs', rebuild_data parsed_data = Ok (VDict kvs') /\
       map fst kvs' = map fst kvs /\
       (forallb (fun kv => clean (snd kv)) kvs = true -> kvs' = kvs)) /\
  ((forall kvs, parsed_data <> VDict kvs) ->
     rebuild_data parsed_data = Error (AttributeError "items")).
Proof.
  split.
  - intros kvs ->. simpl. eexists. split; [reflexivity|]. split.
    + rewrite map_map. apply map_ext. intros [k x]. reflexivity.
    + induction kvs as [|[k x] kvs IH]; simpl; [reflexivity|].
      intros Hc. apply andb_true_iff in Hc as [H1 H2].
      rewrite rebuild_clean_id, IH by assumption. reflexivity.
  - intros H. destruct parsed_data; try reflexivity. exfalso. exact (H kvs eq_refl).
Qed.

(** Reading a string of decimal digits back as a number. *)

Lemma digits_of_value (fuel : nat) (n : Z) (acc : string) (a : Z) :
  0 <= n -> (Z.to_nat n < fuel)%nat ->
  exists k, 0 <= k /\ dec_value (digits_of fuel n acc) a = dec_value acc (a * 10 ^ k + n).
Proof.
  revert n acc a. induction fuel as [|f IH]; intros n acc a Hn Hf; [lia|].
  cbn [digits_of].
  assert (Hc : Z.of_nat (nat_of_ascii (ascii_of_nat (48 + Z.to_nat (n mod 10)))) - 48 = n mod 10).
  { rewrite nat_ascii_embedding by (pose proof (Z.mod_pos_bound n 10); lia).
    pose proof (Z.mod_pos_bound n 10). lia. }
  destruct (Z.ltb_spec n 10) as [Hlt|Hge].
  - exists 1. split; [lia|]. cbn [dec_value]. rewrite Hc, Z.mod_small by lia. f_equal. ring.
  - destruct (IH (n / 10) (String (ascii_of_nat (48 + Z.to_nat (n mod 10))) acc) a)
      as (k & Hk & H).
    + apply Z.div_pos; lia.
    + assert (n / 10 <= n - 9) by (apply Z.div_le_upper_bound; lia). lia.
    + exists (k + 1). split; [lia|]. rewrite H. cbn [dec_value]. rewrite Hc. f_equal.
      rewrite Z.pow_add_r by lia. pose proof (Z.div_mod n 10 ltac:(lia)). lia.
Qed.

Lemma str_of_Z_value (n : Z) : 0 <= n -> dec_value (str_of_Z n) 0 = n.
Proof.
  intros Hn. unfold str_of_Z.
  destruct (digits_of_value (S (Z.to_nat n)) n EmptyString 0 Hn ltac:(lia)) as (k & _ & H).
  rewrite H. reflexivity.
Qed.

Lemma str_of_Z_nonempty (n : Z) : str_of_Z n <> "".
Proof.
  unfold str_of_Z. generalize (Z.to_nat n) as f. intros f.
  assert (forall fuel m acc, acc <> "" -> digits_of fuel m acc <> "") as Hg.
  { induction fuel as [|g IH]; intros m acc Hacc; cbn [digits_of]; [exact Hacc|].
    destruct (Z.ltb m 10); [discriminate | apply IH; discriminate]. }
  cbn [digits_of]. destruct (Z.ltb n 10); [discriminate | apply Hg; discriminate].
Qed.

Lemma NoDup_map_str_of_Z (l : list Z) :
  NoDup l -> Forall (fun n => 0 <= n) l -> NoDup (map str_of_Z l).
Proof.
  intros Hd Hp. apply NoDup_map_NoDup_ForallPairs; [|exact Hd].
  intros a b Ha Hb E. rewrite Forall_forall in Hp.
  rewrite <- (str_of_Z_value a), <- (str_of_Z_value b), E by auto. reflexivity.
Qed.

(** X22: When as_grid returns, its keys are '' followed by '1', ..., 'n', the keys of data are '1', ..., 'n' in the same order, and the keys are pairwise distinct. *)
Theorem as_grid_keys_ids (s : style) (t : Tile) (points : list point)
    (grid_resolution point_width : Z) (u : utfgrid) :
  as_grid s t points grid_resolution point_width = Ok u ->
  exists n, 0 <= n /\
    keys u = "" :: map str_of_Z (zrange 1 (n + 1)) /\
    map fst (data u) = map str_of_Z (zrange 1 (n + 1)) /\
    NoDup (keys u).
Proof.
  intros H. destruct (as_grid_ids s t points grid_resolution point_width u H)
    as (n & Hn & Hk & Hd).
  exists n. split; [exact Hn|]. split; [exact Hk|]. split; [exact Hd|].
  assert (Hz : NoDup (map str_of_Z (zrange 1 (n + 1)))).
  { apply NoDup_map_str_of_Z; [apply NoDup_zrange|].
    apply Forall_forall. intros m Hm. apply in_zrange in Hm. lia. }
  rewrite Hk. constructor; [|exact Hz]. intros Hin. apply in_map_iff in Hin as (m & Hm & _).
  exact (str_of_Z_nonempty m Hm).
Qed.

Lemma clampR_monotone (a b lo hi : R) : (lo <= hi)%R -> (a <= b)%R ->
  (clampR a lo hi <= clampR b lo hi)%R.
Proof.
  intros Hlh Hab. unfold clampR, Rmax, Rmin.
  repeat destruct (Rle_dec _ _);
  repeat match goal with H : ~ (_ <= _)%R |- _ => apply Rnot_le_lt in H end; lra.
Qed.

Lemma sinh_increasing (x y : R) : (x < y)%R -> (sinh x < sinh y)%R.
Proof.
  intros H. unfold sinh. pose proof (exp_increasing x y H).
  pose proof (exp_increasing (- y) (- x) ltac:(lra)). lra.
Qed.

Lemma translate_lat_antitone (t : Tile) (x1 x2 y1 y2 : R) :
  0 <= tile_z t -> (y1 <= y2)%R ->
  (fst (translate t x2 y2) <= fst (translate t x1 y1))%R.
Proof.
  intros Hz Hy. unfold translate, degrees. simpl fst.
  pose proof (zoom_factor_ge_1 t Hz) as Hzf. pose proof PI_RGT_0.
  destruct Hy as [Hy|Hy]; [|subst y2; lra].
  assert (PI * (1 - 2 * (IZR (tile_y t) + y2) / zoom_factor t) <
          PI * (1 - 2 * (IZR (tile_y t) + y1) / zoom_factor t))%R.
  { apply Rmult_lt_compat_l; [lra|].
    assert (2 * (IZR (tile_y t) + y1) / zoom_factor t < 2 * (IZR (tile_y t) + y2) / zoom_factor t)%R.
    { unfold Rdiv. apply Rmult_lt_compat_r; [apply Rinv_0_lt_compat; lra | lra]. }
    lra. }
  apply sinh_increasing, atan_increasing in H0.
  apply Rmult_le_compat_r; [left; apply Rinv_0_lt_compat; lra|].
  apply Rmult_le_compat_r; lra.
Qed.

Lemma translate_lon_monotone (t : Tile) (x1 x2 y1 y2 : R) :
  0 <= tile_z t -> (x1 <= x2)%R ->
  (snd (translate t x1 y1) <= snd (translate t x2 y2))%R.
Proof.
  intros Hz Hx. unfold translate. simpl snd.
  pose proof (zoom_factor_ge_1 t Hz) as Hzf.
  assert ((IZR (tile_x t) + x1) / zoom_factor t <= (IZR (tile_x t) + x2) / zoom_factor t)%R.
  { unfold Rdiv. apply Rmult_le_compat_r; [left; apply Rinv_0_lt_compat; lra | lra]. }
  lra.
Qed.

(** X27: For z >= 0 and extra >= -1/2, the clamped corners lat_lon_clamp(top_left(extra)) and lat_lon_clamp(bottom_right(extra)) that search sends as the geo_bounding_box are ordered: south <= north within +-85.0511 and west <= east within +-180. *)
Theorem search_bounding_box_ordered (t : Tile) (extra : R) :
  0 <= tile_z t -> (-1 / 2 <= extra)%R ->
  let '(north, west) := lat_lon_clamp (top_left t extra) in
  let '(south, east) := lat_lon_clamp (bottom_right t extra) in
  (-850511 / 10000 <= south <= north)%R /\ (north <= 850511 / 10000)%R /\
  (-180 <= west <= east)%R /\ (east <= 180)%R.
Proof.
  intros Hz He. unfold lat_lon_clamp, top_left, bottom_right. cbn [fst snd].
  pose proof (translate_lat_antitone t (- extra) (1 + extra) (- extra) (1 + extra) Hz ltac:(lra)).
  pose proof (translate_lon_monotone t (- extra) (1 + extra) (- extra) (1 + extra) Hz ltac:(lra)).
  pose proof (clampR_monotone _ _ (-850511 / 10000) (850511 / 10000) ltac:(lra) H).
  pose proof (clampR_monotone _ _ (-180) 180 ltac:(lra) H0).
  pose proof (proj1 (clampR_range (fst (translate t (1 + extra) (1 + extra))) (-850511 / 10000) (850511 / 10000) ltac:(lra))).
  pose proof (proj1 (clampR_range (fst (translate t (- extra) (- extra))) (-850511 / 10000) (850511 / 10000) ltac:(lra))).
  pose proof (proj1 (clampR_range (snd (translate t (1 + extra) (1 + extra))) (-180) 180 ltac:(lra))).
  pose proof (proj1 (clampR_range (snd (translate t (- extra) (- extra))) (-180) 180 ltac:(lra))).
  lra.
Qed.


(** ** maps.parameters.extract_search_params *)

(** [request.args]: the query string parameters, first value per name. *)

Lemma map_result_strip_strs (l : list string) :
  map_result strip_value (map VStr l) = Ok (map strip l).
Proof. induction l as [|s l IH]; simpl; [reflexivity | rewrite IH; reflexivity]. Qed.

(** X28: Without a 'query' parameter, and with a 'search' parameter that parses or is absent, extract_search_params raises MissingIndex when 'indexes' is absent and otherwise returns the comma-split, stripped indexes with the parsed search body. *)
Theorem extract_search_params_no_query json_loads parse_query_body
    (args : request_args) (search_body : pyval) :
  arg_lookup "query" args = None ->
  extract args "search" VNone json_loads = Ok search_body ->
  extract_search_params json_loads parse_query_body args =
    match arg_lookup "indexes" args with
    | None => MissingIndex
    | Some i => SearchParams (map strip (split_on ","%char i)) search_body
    end.
Proof.
  intros Hq Hs. unfold extract_search_params. rewrite Hs.
  unfold extract at 1 2. rewrite Hq. simpl bind. cbv iota.
  destruct (arg_lookup "indexes" args) as [i|]; simpl; [|reflexivity].
  unfold finish_search_params. simpl. rewrite map_result_strip_strs. reflexivity.
Qed.

(** X29: With a truthy 'query' body, a 'search' parameter that fails to parse still raises; otherwise the query body's 'search' and 'indexes' entries replace both parameters. *)
Theorem extract_search_params_query json_loads parse_query_body
    (args : request_args) (q : string) (query_body : pyval) :
  arg_lookup "query" args = Some q ->
  parse_query_body q = Ok query_body -> truthy query_body = true ->
  (forall e, extract args "search" VNone json_loads = Error e ->
     extract_search_params json_loads parse_query_body args = SearchError e) /\
  (forall search_body, extract args "search" VNone json_loads = Ok search_body ->
     extract_search_params json_loads parse_query_body args =
       match getitem query_body "search", getitem query_body "indexes" with
       | Error e, _ => SearchError e
       | Ok _, Error e => SearchError e
       | Ok sb, Ok ix => finish_search_params ix sb
       end).
Proof.
  intros Hq Hp Ht. unfold extract_search_params. split.
  - intros e He. rewrite He. unfold extract at 1. destruct (arg_lookup "indexes" args); reflexivity.
  - intros sb Hs. rewrite Hs. unfold extract at 1 2. rewrite Hq, Hp. simpl bind. rewrite Ht.
    destruct (arg_lookup "indexes" args); simpl;
    destruct (getitem query_body "search"); simpl; try reflexivity;
    destruct (getitem query_body "indexes"); reflexivity.
Qed.

(** X30: The last step of extract_search_params raises MissingIndex for indexes None, strips each string of a list of strings, iterates a string character by character, and raises on a list holding a non-string. *)
Theorem finish_search_params_cases (indexes search_body : pyval) :
  (indexes = VNone -> finish_search_params indexes search_body = MissingIndex) /\
  (forall l, indexes = VList (map VStr l) ->
     finish_search_params indexes search_body = SearchParams (map strip l) search_body) /\
  (forall s, indexes = VStr s ->
     finish_search_params indexes search_body =
       SearchParams (map (fun c => strip (String c EmptyString)) (list_ascii_of_string s))
         search_body) /\
  (forall l v, indexes = VList l -> In v l -> (forall s, v <> VStr s) ->
     exists e, finish_search_params indexes search_body = SearchError e).
Proof.
  unfold finish_search_params. repeat split.
  - intros ->. reflexivity.
  - intros l ->. simpl. rewrite map_result_strip_strs. reflexivity.
  - intros s ->. simpl. induction (list_ascii_of_string s) as [|c cs IH]; simpl; [reflexivity|].
    destruct (map_result strip_value (map (fun c => VStr (String c EmptyString)) cs));
      inversion IH; reflexivity.
  - intros l v -> Hin Hv. simpl. induction l as [|a l IH]; [contradiction|].
    destruct Hin as [Ea|Hin].
    + rewrite Ea. destruct v; try (exfalso; now apply (Hv s)); simpl; eexists; reflexivity.
    + simpl. destruct (strip_value a); simpl; [|eexists; reflexivity].
      destruct (map_result strip_value l); simpl; [|eexists; reflexivity].
      destruct (IH Hin) as [e He]. discriminate.
Qed.

Lemma encode_id_increasing_witness :
  1 <= 2 < 3 /\ 33 <= encode_id 2 < encode_id 3 /\ encode_id 2 <> 34 /\ encode_id 2 <> 92.
Proof. split; [lia | apply encode_id_increasing; lia]. Defined.

Lemma longitude_to_x_periodic_witness :
  (-180 < 10 < 180)%R /\ longitude_to_x tile0 (10 + 360 * IZR 1) = longitude_to_x tile0 10.
Proof. split; [lra | apply longitude_to_x_periodic; lra]. Defined.

Lemma longitude_to_x_antimeridian_witness :
  1 <> 0 /\ longitude_to_x tile0 (180 + 360 * IZR 1) = 0%R /\
  longitude_to_x tile0 180 = zoom_factor tile0.
Proof. split; [lia | apply longitude_to_x_antimeridian; lia]. Defined.

Lemma translate_tile0_half : translate tile0 (1 / 2) (1 / 2) = (0%R, 0%R).
Proof. exact middle_tile0. Qed.

Lemma longitude_to_x_translate_witness :
  0 <= tile_z tile0 /\ (0 <= IZR (tile_x tile0) + 1 / 2 <= zoom_factor tile0)%R /\
  longitude_to_x tile0 (snd (translate tile0 (1 / 2) (1 / 2))) = (IZR (tile_x tile0) + 1 / 2)%R.
Proof.
  assert (H1 : 0 <= tile_z tile0) by (simpl; lia).
  assert (H2 : (0 <= IZR (tile_x tile0) + 1 / 2 <= zoom_factor tile0)%R)
    by (rewrite zoom_factor_tile0; simpl tile_x; lra).
  split; [exact H1|]. split; [exact H2|]. apply longitude_to_x_translate; assumption.
Defined.

Lemma latitude_to_y_translate_witness :
  0 <= tile_z tile0 /\
  (-850511 / 10000 <= fst (translate tile0 (1 / 2) (1 / 2)) <= 850511 / 10000)%R /\
  latitude_to_y tile0 (fst (translate tile0 (1 / 2) (1 / 2))) = (IZR (tile_y tile0) + 1 / 2)%R.
Proof.
  assert (H1 : 0 <= tile_z tile0) by (simpl; lia).
  assert (H2 : (-850511 / 10000 <= fst (translate tile0 (1 / 2) (1 / 2)) <= 850511 / 10000)%R)
    by (rewrite translate_tile0_half; simpl fst; lra).
  split; [exact H1|]. split; [exact H2|]. apply latitude_to_y_translate; assumption.
Defined.

Lemma longitude_to_tile_x_translate_witness :
  0 <= tile_z tile0 /\ 0 <= tile_x tile0 < 2 ^ tile_z tile0 /\
  (0 <= IZR (tile_x tile0) + 1 / 2 <= zoom_factor tile0)%R /\
  longitude_to_tile_x tile0 (snd (translate tile0 (1 / 2) (1 / 2))) 4 =
  (1 / 2 * (IZR (width tile0) * 4))%R.
Proof.
  assert (H1 : 0 <= tile_z tile0) by (simpl; lia).
  assert (H2 : 0 <= tile_x tile0 < 2 ^ tile_z tile0) by (simpl; lia).
  assert (H3 : (0 <= IZR (tile_x tile0) + 1 / 2 <= zoom_factor tile0)%R)
    by (rewrite zoom_factor_tile0; simpl tile_x; lra).
  split; [exact H1|]. split; [exact H2|]. split; [exact H3|].
  apply longitude_to_tile_x_translate; assumption.
Defined.

Lemma latitude_to_tile_y_translate_witness :
  0 <= tile_z tile0 /\
  (-850511 / 10000 <= fst (translate tile0 (1 / 2) (1 / 2)) <= 850511 / 10000)%R /\
  (-850511 / 10000 <= fst (middle tile0) <= 850511 / 10000)%R /\
  latitude_to_tile_y tile0 (fst (translate tile0 (1 / 2) (1 / 2))) 4 =
  (1 / 2 * (IZR (width tile0) * 4))%R.
Proof.
  assert (H1 : 0 <= tile_z tile0) by (simpl; lia).
  assert (H2 : (-850511 / 10000 <= fst (translate tile0 (1 / 2) (1 / 2)) <= 850511 / 10000)%R)
    by (rewrite translate_tile0_half; simpl fst; lra).
  assert (H3 : (-850511 / 10000 <= fst (middle tile0) <= 850511 / 10000)%R)
    by (rewrite middle_tile0; simpl fst; lra).
  split; [exact H1|]. split; [exact H2|]. split; [exact H3|].
  apply latitude_to_tile_y_translate; assumption.
Defined.

Lemma latitude_to_y_monotone_witness :
  (0 <= 1)%R /\
  (latitude_to_y tile0 1 <= latitude_to_y tile0 0)%R /\
  ((850511 / 10000 <= 0)%R -> latitude_to_y tile0 1 = latitude_to_y tile0 0) /\
  ((1 <= -850511 / 10000)%R -> latitude_to_y tile0 1 = latitude_to_y tile0 0).
Proof. split; [lra | apply latitude_to_y_monotone; lra]. Defined.

Lemma group_points_conserves_totals_witness :
  group_points tile0 [PTuple 0 0 1 record_u] 32 = Ok grid_record_u_cells /\
  let grid_size := width tile0 / 32 in
  List.length grid_record_u_cells = Z.to_nat grid_size /\
  Forall (fun row => List.length row = Z.to_nat grid_size) grid_record_u_cells /\
  cell_total grid_record_u_cells =
    zsum (map (point_weight tile0 grid_size (IZR grid_size / IZR (width tile0)))
            [PTuple 0 0 1 record_u]).
Proof.
  split; [exact group_points_record_u|].
  apply group_points_conserves_totals. exact group_points_record_u.
Defined.

Lemma assign_colour_total_witness :
  (exists c, assign_colour 4 violet red 12 = Ok (Some c) /\
     In c (range_to violet red (12 + 1))) /\
  assign_colour 4 violet red 711 = Error (OverflowError "math range error") /\
  assign_colour 0 violet red 711 = Ok None.
Proof.
  split; [|split].
  - apply (proj1 (proj2 (assign_colour_total 4 violet red 12))); lia.
  - apply (proj2 (proj2 (assign_colour_total 4 violet red 711))); lia.
  - apply (proj1 (assign_colour_total 0 violet red 711)). reflexivity.
Defined.

Lemma assign_colour_monotone_witness :
  0 <= 12 <= 710 /\ 1 <> 0 /\ 4 <> 0 /\ 1 <= 4 /\
  exists i1 i2 : Z, 0 <= i1 <= i2 /\ i2 <= 12 /\
    assign_colour 1 violet red 12 =
      (c <- py_index (range_to violet red (12 + 1)) i1 ;; Ok (Some c)) /\
    assign_colour 4 violet red 12 =
      (c <- py_index (range_to violet red (12 + 1)) i2 ;; Ok (Some c)).
Proof.
  split; [lia|]. split; [lia|]. split; [lia|]. split; [lia|].
  apply assign_colour_monotone; lia.
Defined.

Lemma gridded_render_one_point_per_cell_witness :
  0 <= 12 <= 710 /\ 1 <= 4 /\ 2 <= 32 /\ 0 <= width tile0 /\
  group_points tile0 [PTuple 0 0 1 record_u] 32 = Ok grid_record_u_cells /\
  exists pastes,
    gridded_render tile0 [PTuple 0 0 1 record_u] 32 violet red 12 4 = Ok pastes /\
    map gp_position pastes =
      map (fun '(x, y, _, _) => (x * 32 * 4, y * 32 * 4))
        (filter (fun '(_, _, count, _) => negb (Z.eqb count 0)) (grid_cells grid_record_u_cells)) /\
    Forall (fun p => gp_radius p = 32 / 2 /\ gp_resize_factor p = 4 /\
                     In (gp_colour p) (range_to violet red (12 + 1))) pastes.
Proof.
  split; [lia|]. split; [lia|]. split; [lia|]. split; [vm_compute; discriminate|].
  split; [exact group_points_record_u|].
  apply gridded_render_one_point_per_cell; [lia | lia | lia | vm_compute; discriminate |
                                            exact group_points_record_u].
Defined.

Lemma as_grid_keys_ids_witness :
  as_grid Gridded tile0 [PTuple 0 0 1 record_u] 32 1 = Ok grid_record_u /\
  exists n, 0 <= n /\
    keys grid_record_u = "" :: map str_of_Z (zrange 1 (n + 1)) /\
    map fst (data grid_record_u) = map str_of_Z (zrange 1 (n + 1)) /\
    NoDup (keys grid_record_u).
Proof.
  split; [exact as_grid_record_u_12|].
  apply (as_grid_keys_ids Gridded tile0 [PTuple 0 0 1 record_u] 32 1).
  exact as_grid_record_u_12.
Defined.

Lemma as_grid_no_points_witness :
  32 <> 0 /\ is_power_of_two (width tile0 / 32) = true /\
  as_grid Plot tile0 [] 32 3 = Ok (blank_grid (width tile0 / 32)).
Proof.
  assert (H1 : 32 <> 0) by lia.
  assert (H2 : is_power_of_two (width tile0 / 32) = true) by reflexivity.
  split; [exact H1|]. split; [exact H2|]. apply as_grid_no_points; assumption.
Defined.

Lemma rebuild_dict_or_list_clean_witness :
  clean doc_clean = true /\ rebuild_dict_or_list doc_clean = doc_clean.
Proof.
  assert (H : clean doc_clean = true) by reflexivity.
  split; [exact H | apply rebuild_dict_or_list_clean; exact H].
Defined.

Lemma rebuild_dict_or_list_structural_keys_witness :
  assoc_lookup "_u" doc_structural = None /\
  exists kvs', rebuild_dict_or_list (VDict doc_structural) = VDict kvs' /\
    map fst kvs' = filter kept_key (map fst doc_structural) /\
    forallb (fun kv => kept_key (fst kv)) kvs' = true.
Proof.
  assert (H : assoc_lookup "_u" doc_structural = None) by reflexivity.
  split; [exact H | apply rebuild_dict_or_list_structural_keys; exact H].
Defined.

Lemma search_bounding_box_ordered_witness :
  0 <= tile_z tile0 /\ (-1 / 2 <= 1 / 100)%R /\
  let '(north, west) := lat_lon_clamp (top_left tile0 (1 / 100)) in
  let '(south, east) := lat_lon_clamp (bottom_right tile0 (1 / 100)) in
  (-850511 / 10000 <= south <= north)%R /\ (north <= 850511 / 10000)%R /\
  (-180 <= west <= east)%R /\ (east <= 180)%R.
Proof.
  assert (H1 : 0 <= tile_z tile0) by (simpl; lia).
  assert (H2 : (-1 / 2 <= 1 / 100)%R) by lra.
  split; [exact H1|]. split; [exact H2|]. apply search_bounding_box_ordered; assumption.
Defined.

Lemma extract_search_params_no_query_witness :
  arg_lookup "query" args_indexes = None /\
  extract args_indexes "search" VNone (fun _ => Ok (VDict [])) = Ok VNone /\
  extract_search_params (fun _ => Ok (VDict [])) (fun _ => Ok VNone) args_indexes =
    match arg_lookup "indexes" args_indexes with
    | None => MissingIndex
    | Some i => SearchParams (map strip (split_on ","%char i)) VNone
    end.
Proof.
  assert (H1 : arg_lookup "query" args_indexes = None) by reflexivity.
  assert (H2 : extract args_indexes "search" VNone (fun _ => Ok (VDict [])) = Ok VNone)
    by reflexivity.
  split; [exact H1|]. split; [exact H2|].
  apply extract_search_params_no_query; assumption.
Defined.

Lemma extract_search_params_query_witness :
  arg_lookup "query" args_query = Some "q" /\
  (fun _ : string => Ok query_body_chars) "q" = Ok query_body_chars /\
  truthy query_body_chars = true /\
  (forall e, extract args_query "search" VNone (fun _ => Ok VNone) = Error e ->
     extract_search_params (fun _ => Ok VNone) (fun _ => Ok query_body_chars) args_query =
       SearchError e) /\
  (forall search_body, extract args_query "search" VNone (fun _ => Ok VNone) = Ok search_body ->
     extract_search_params (fun _ => Ok VNone) (fun _ => Ok query_body_chars) args_query =
       match getitem query_body_chars "search", getitem query_body_chars "indexes" with
       | Error e, _ => SearchError e
       | Ok _, Error e => SearchError e
       | Ok sb, Ok ix => finish_search_params ix sb
       end).
Proof.
  assert (H1 : arg_lookup "query" args_query = Some "q") by reflexivity.
  assert (H2 : (fun _ : string => Ok query_body_chars) "q" = Ok query_body_chars) by reflexivity.
  assert (H3 : truthy query_body_chars = true) by reflexivity.
  split; [exact H1|]. split; [exact H2|]. split; [exact H3|].
  apply (extract_search_params_query (fun _ => Ok VNone) (fun _ => Ok query_body_chars)
           args_query "q"); assumption.
Defined.
